(** * YT-Downloader: the download-and-merge pipeline of [main.py]

    A shallow embedding of the pipeline code of [src/main.py]
    ([Worker.run], [MainWindow.download_video], [on_download_progress],
    [progress_reader]) and the properties of the specification that can be
    stated over it; then of the code around the pipeline
    ([available_resolutions], [dragEnterEvent], [download_manager],
    [download_worker] and the slots it connects), with the properties that
    this code shows.

    Conventions of the embedding.
    - Python [int] is [Z].
    - Python [float] is [pyfloat]: a finite value is an exact rational, and
      the two infinities and NaN are kept as separate values.  The rounding
      of binary64 arithmetic is not part of the model: [/], [*] and
      [round] are exact on finite values.
    - Python [str] and the [bytes] read from the progress pipe are [string];
      the pipe is taken to carry ASCII text.
    - A pytube stream query is the list of its streams, and [filter]
      keeps the streams that pass every keyword argument; how [filter]
      treats [adaptive=] is left open.
    - A raised exception is a value of [exn]; code that can raise returns
      [res].  The state of the window, of the file system and the trace of
      observable events survive a raise, as they do in Python. *)

From Stdlib Require Import ZArith QArith Qround Qabs Lqa Lia.
From Stdlib Require Import List String Ascii Bool DecimalString DecimalPos DecimalN.
From stdpp Require Import gmap strings.
Import ListNotations.

Local Open Scope string_scope.
Local Open Scope Z_scope.
Local Set Warnings "-register-all".

(* ===================================================================== *)
(** * Python values *)
(* ===================================================================== *)

(** The exception classes that the pipeline code can raise or meet. *)
Inductive exn : Type :=
| IndexError
| KeyError
| ValueError
| TypeError
| AttributeError
| UnboundLocalError
| ZeroDivisionError
| JSONDecodeError
| OSError
| LibraryError (what : string).

Inductive res (A : Type) : Type :=
| Ok (a : A)
| Raise (e : exn).
Arguments Ok {A} a.
Arguments Raise {A} e.

Definition res_bind {A B} (r : res A) (k : A -> res B) : res B :=
  match r with
  | Ok a => k a
  | Raise e => Raise e
  end.

Inductive pyfloat : Type :=
| Fin (q : Q)
| Inf (negative : bool)
| NaN.

Definition float_of_int (z : Z) : pyfloat := Fin (inject_Z z).

Definition Qneg (q : Q) : bool :=
  match Qcompare q 0 with Lt => true | _ => false end.

Definition Qzero (q : Q) : bool :=
  match Qcompare q 0 with Eq => true | _ => false end.

Definition fneg (x : pyfloat) : pyfloat :=
  match x with
  | Fin q => Fin (Qred (- q))
  | Inf s => Inf (negb s)
  | NaN => NaN
  end.

(** [float.__truediv__]: a zero divisor raises, whatever the dividend. *)
Definition float_truediv (x y : pyfloat) : res pyfloat :=
  match y with
  | Fin b =>
      if Qzero b then Raise ZeroDivisionError
      else match x with
           | Fin a => Ok (Fin (Qred (a / b)))
           | Inf s => Ok (Inf (xorb s (Qneg b)))
           | NaN => Ok NaN
           end
  | Inf t =>
      match x with
      | Fin _ => Ok (Fin 0)
      | _ => Ok NaN
      end
  | NaN => Ok NaN
  end.

(** [float.__mul__]. *)
Definition float_mul (x y : pyfloat) : pyfloat :=
  match x, y with
  | Fin a, Fin b => Fin (Qred (a * b))
  | Fin a, Inf t => if Qzero a then NaN else Inf (xorb (Qneg a) t)
  | Inf s, Fin b => if Qzero b then NaN else Inf (xorb s (Qneg b))
  | Inf s, Inf t => Inf (xorb s t)
  | _, _ => NaN
  end.

(** [int / int]: true division of two integers. *)
Definition int_truediv (a b : Z) : res pyfloat :=
  if b =? 0 then Raise ZeroDivisionError
  else Ok (Fin (Qred (inject_Z a / inject_Z b))).

(** [n / x] with [n] an [int] and [x] a [float]: the [int] is converted. *)
Definition int_truediv_float (n : Z) (x : pyfloat) : res pyfloat :=
  float_truediv (float_of_int n) x.

(** [x * n] with [n] an [int]. *)
Definition float_mul_int (x : pyfloat) (n : Z) : pyfloat :=
  float_mul x (float_of_int n).

(** Round half to even to the nearest integer. *)
Definition Qround_half_even (q : Q) : Z :=
  let f := Qfloor q in
  match Qcompare (q - inject_Z f) (1 # 2) with
  | Lt => f
  | Gt => f + 1
  | Eq => if Z.even f then f else f + 1
  end.

(** [round(x, ndigits)] for a float [x] and [ndigits >= 0]. *)
Definition py_round (x : pyfloat) (ndigits : Z) : pyfloat :=
  match x with
  | Fin q =>
      let scale := inject_Z (10 ^ ndigits) in
      Fin (Qred (inject_Z (Qround_half_even (q * scale)) / scale))
  | _ => x
  end.

(** ** Strings *)

Definition ascii_code (c : ascii) : Z := Z.of_nat (nat_of_ascii c).

(** The ASCII characters that [str.strip], [int] and [float] skip. *)
Definition is_space (c : ascii) : bool :=
  let n := ascii_code c in
  ((9 <=? n) && (n <=? 13)) || ((28 <=? n) && (n <=? 32)).

Definition is_digit (c : ascii) : bool :=
  let n := ascii_code c in (48 <=? n) && (n <=? 57).

Definition digit_val (c : ascii) : Z := ascii_code c - 48.

Fixpoint lstrip (s : string) : string :=
  match s with
  | String c r => if is_space c then lstrip r else s
  | EmptyString => EmptyString
  end.

Fixpoint rstrip (s : string) : string :=
  match s with
  | String c r =>
      match rstrip r with
      | EmptyString => if is_space c then EmptyString else String c EmptyString
      | r' => String c r'
      end
  | EmptyString => EmptyString
  end.

Definition strip (s : string) : string := rstrip (lstrip s).

(** [s.startswith(p)] *)
Definition startswith (p s : string) : bool := String.prefix p s.

(** [s.split(sep)] for a one-character separator. *)
Fixpoint split_on (sep : ascii) (s : string) : list string :=
  match s with
  | EmptyString => [EmptyString]
  | String c r =>
      if Ascii.eqb c sep then EmptyString :: split_on sep r
      else match split_on sep r with
           | w :: ws => String c w :: ws
           | [] => [String c EmptyString]
           end
  end.

(** [s.partition(sep)[-1]]: what follows the first [sep], or the empty
    string when [sep] does not occur. *)
Fixpoint partition_last (sep : ascii) (s : string) : string :=
  match s with
  | EmptyString => EmptyString
  | String c r => if Ascii.eqb c sep then r else partition_last sep r
  end.

(** [l[i]] for a list and a non-negative index. *)
Definition list_getitem {A} (l : list A) (i : nat) : res A :=
  match nth_error l i with
  | Some a => Ok a
  | None => Raise IndexError
  end.

(** A run of decimal digits in which single underscores may separate
    digits; [prev] tells whether the previous character was a digit. *)
Fixpoint parse_digits (acc : Z) (prev : bool) (s : string) : option Z :=
  match s with
  | EmptyString => if prev then Some acc else None
  | String c r =>
      if is_digit c then parse_digits (acc * 10 + digit_val c) true r
      else if Ascii.eqb c "_" && prev then parse_digits acc false r
      else None
  end.

(** [int(s)] for a string [s], base 10. *)
Definition py_int (s : string) : res Z :=
  let t := strip s in
  let body :=
    match t with
    | String "+" r => parse_digits 0 false r
    | String "-" r => option_map Z.opp (parse_digits 0 false r)
    | _ => parse_digits 0 false t
    end in
  match body with
  | Some z => Ok z
  | None => Raise ValueError
  end.

(** A [digitpart] at the start of [s]: its value, its number of digits and
    the rest of [s].  An underscore is taken only between two digits. *)
Fixpoint scan_digits (acc : Z) (n : nat) (s : string) : Z * nat * string :=
  match s with
  | String c r =>
      if is_digit c then scan_digits (acc * 10 + digit_val c) (S n) r
      else if Ascii.eqb c "_" && negb (Nat.eqb n 0) then
        match r with
        | String d _ => if is_digit d then scan_digits acc n r else (acc, n, s)
        | EmptyString => (acc, n, s)
        end
      else (acc, n, s)
  | EmptyString => (acc, n, s)
  end.

Definition lower (c : ascii) : ascii :=
  let n := nat_of_ascii c in
  if (Nat.leb 65 n && Nat.leb n 90)%bool then ascii_of_nat (n + 32) else c.

Fixpoint lower_string (s : string) : string :=
  match s with
  | String c r => String (lower c) (lower_string r)
  | EmptyString => EmptyString
  end.

(** The optional exponent of a float literal: its value and the rest. *)
Definition parse_exponent (s : string) : option (Z * string) :=
  match s with
  | String c r =>
      if Ascii.eqb (lower c) "e" then
        let '(sign, r1) :=
          match r with
          | String "+" r' => (1, r')
          | String "-" r' => (-1, r')
          | _ => (1, r)
          end in
        let '(v, n, rest) := scan_digits 0 0 r1 in
        if Nat.eqb n 0 then None else Some (sign * v, rest)
      else Some (0, s)
  | EmptyString => Some (0, s)
  end.

(** [floatnumber]: [digitpart] ["."] [digitpart] with at least one digit,
    then an optional exponent, and nothing after it. *)
Definition parse_floatnumber (s : string) : option Q :=
  let '(ip, ni, r1) := scan_digits 0 0 s in
  let '(fp, nf, r2) :=
    match r1 with
    | String "." r => scan_digits 0 0 r
    | _ => (0, 0%nat, r1)
    end in
  if Nat.eqb (ni + nf) 0 then None
  else match parse_exponent r2 with
       | Some (e, EmptyString) =>
           Some (Qred (inject_Z (ip * 10 ^ Z.of_nat nf + fp)
                       * Qpower (inject_Z 10) (e - Z.of_nat nf)))
       | _ => None
       end.

Definition parse_absfloat (s : string) : option pyfloat :=
  let l := lower_string s in
  if String.eqb l "inf" || String.eqb l "infinity" then Some (Inf false)
  else if String.eqb l "nan" then Some NaN
  else option_map Fin (parse_floatnumber s).

(** [float(s)] for a string [s]. *)
Definition py_float_of_string (s : string) : res pyfloat :=
  let t := strip s in
  let body :=
    match t with
    | String "+" r => parse_absfloat r
    | String "-" r => option_map fneg (parse_absfloat r)
    | _ => parse_absfloat t
    end in
  match body with
  | Some x => Ok x
  | None => Raise ValueError
  end.

(* ===================================================================== *)
(** * JSON values, as [json.loads] builds them *)
(* ===================================================================== *)

(** A [dict] is the list of its items; its keys are strings and distinct. *)
Inductive json : Type :=
| JNone
| JBool (b : bool)
| JInt (z : Z)
| JFloat (x : pyfloat)
| JStr (s : string)
| JList (l : list json)
| JDict (items : list (string * json)).

Fixpoint dict_get (items : list (string * json)) (k : string) : option json :=
  match items with
  | [] => None
  | (k', v) :: rest => if String.eqb k' k then Some v else dict_get rest k
  end.

(** [v[k]] for a string key [k]. *)
Definition getitem_str (v : json) (k : string) : res json :=
  match v with
  | JDict items =>
      match dict_get items k with
      | Some x => Ok x
      | None => Raise KeyError
      end
  | _ => Raise TypeError
  end.

(** [v[0]]. *)
Definition getitem_0 (v : json) : res json :=
  match v with
  | JList l => list_getitem l 0
  | JStr s =>
      match s with
      | String c _ => Ok (JStr (String c EmptyString))
      | EmptyString => Raise IndexError
      end
  | JDict _ => Raise KeyError
  | _ => Raise TypeError
  end.

(** [float(v)]. *)
Definition py_float (v : json) : res pyfloat :=
  match v with
  | JStr s => py_float_of_string s
  | JInt z => Ok (float_of_int z)
  | JFloat x => Ok x
  | JBool b => Ok (float_of_int (if b then 1 else 0))
  | JNone | JList _ | JDict _ => Raise TypeError
  end.

(* ===================================================================== *)
(** * [Worker]: the thread wrapper around the pipeline function *)
(* ===================================================================== *)

(** The signals of [WorkerSignals], with the data each one carries.  The
    payload of [error] is the tuple [(exctype, value, format_exc())]: the
    class of the exception, the exception and the traceback text. *)
Inductive signal (R : Type) : Type :=
| finished
| error (exctype : exn) (value : exn) (tb : string)
| result (r : R)
| progress (n : pyfloat).
Arguments finished {R}.
Arguments error {R} exctype value tb.
Arguments result {R} r.
Arguments progress {R} n.

Inductive worker_effect (R : Type) : Type :=
| PrintExc (tb : string)
| Emit (s : signal R).
Arguments PrintExc {R} tb.
Arguments Emit {R} s.

Section Worker.
Context {R : Type}.
(** [traceback.format_exc()] for the exception being handled. *)
Variable format_exc : exn -> string.

(** [Worker.run], given what the call [self.fn( *args, **kwargs)] did:
    the [try] / [except] / [else] / [finally] statement. *)
Definition Worker_run (call : res R) : list (worker_effect R) :=
  (match call with
   | Raise e =>
       [PrintExc (format_exc e); Emit (error e e (format_exc e))]
   | Ok r =>
       [Emit (result r)]
   end)
  ++ [Emit finished].
End Worker.

Definition is_finished {R} (w : worker_effect R) : bool :=
  match w with Emit finished => true | _ => false end.

Definition is_error {R} (w : worker_effect R) : bool :=
  match w with Emit (error _ _ _) => true | _ => false end.

Definition is_result {R} (w : worker_effect R) : bool :=
  match w with Emit (result _) => true | _ => false end.

Definition count_effects {R} (p : worker_effect R -> bool)
    (l : list (worker_effect R)) : nat :=
  List.length (List.filter p l).

(* ===================================================================== *)
(** * [MainWindow]: the state the pipeline reads and writes *)
(* ===================================================================== *)

(** A stream object of the catalog, with what its [download] call will do:
    the [bytes_remaining] value of each progress callback, in order, and
    the exception that ends the transfer, if one does. *)
Record stream : Type := {
  itag : Z;
  filesize : Z;
  progress_feed : list Z;
  download_fault : option exn
}.

(** The attributes of [self] that [download_video] and
    [on_download_progress] use.  [yt] and [streams] hold the stream query of
    the loaded video, or [None]. *)
Record window : Type := {
  audio : list string;
  combobox_text : string;
  yt : option (list stream);
  streams : option (list stream);
  video_stream : option stream;
  audio_stream : option stream;
  output_filename : option string;
  temp_folder : string;
  pct_completed : pyfloat;
  ffmpeg_string : option string
}.

Record filesystem : Type := {
  dirs : gset string;
  files : gset string
}.

(** What an observer of the run can see, in the order it happens. *)
Inductive event : Type :=
| ShowMessage (msg : string)
| SetValue (p : pyfloat)
| SetFormat (template : string) (p : pyfloat)
| EmitProgress (p : pyfloat)
| DownloadCalled (path : string)
| DownloadReturned (path : string)
| ProbeRun (cmd : string)
| ProbeExited (returncode : Z)
| Popen (cmd : string) (output : string)
| ReaderStarted
| Polled (status : option Z)
| Slept
| PipeClosed
| ReaderJoined
| Waited (returncode : Z).

Record state : Type := {
  win : window;
  fs : filesystem;
  trace : list event
}.

(** Statements that read and write [state] and may raise. *)
Definition M (A : Type) : Type := state -> res A * state.

Definition ret {A} (a : A) : M A := fun st => (Ok a, st).

Definition raise {A} (e : exn) : M A := fun st => (Raise e, st).

Definition bind {A B} (c : M A) (k : A -> M B) : M B :=
  fun st =>
    match c st with
    | (Ok a, st') => k a st'
    | (Raise e, st') => (Raise e, st')
    end.

Declare Scope py_scope.
Delimit Scope py_scope with py.
Notation "x <- c ;; k" := (bind c (fun x => k))
  (at level 100, c at next level, k at level 200, right associativity)
  : py_scope.
Notation "c ;; k" := (bind c (fun _ => k))
  (at level 100, k at level 200, right associativity) : py_scope.
Local Open Scope py_scope.

Definition lift {A} (r : res A) : M A := fun st => (r, st).

Definition self : M window := fun st => (Ok (win st), st).

Definition set_self (f : window -> window) : M unit :=
  fun st => (Ok tt, {| win := f (win st); fs := fs st; trace := trace st |}).

Definition emit (ev : event) : M unit :=
  fun st => (Ok tt, {| win := win st; fs := fs st; trace := trace st ++ [ev] |}).

Definition write_file (path : string) : M unit :=
  fun st =>
    (Ok tt,
     {| win := win st;
        fs := {| dirs := dirs (fs st); files := {[ path ]} ∪ files (fs st) |};
        trace := trace st |}).

Definition set_pct_completed (p : pyfloat) (w : window) : window :=
  {| audio := audio w; combobox_text := combobox_text w; yt := yt w;
     streams := streams w; video_stream := video_stream w;
     audio_stream := audio_stream w; output_filename := output_filename w;
     temp_folder := temp_folder w; pct_completed := p;
     ffmpeg_string := ffmpeg_string w |}.

Definition set_video_stream (s : option stream) (w : window) : window :=
  {| audio := audio w; combobox_text := combobox_text w; yt := yt w;
     streams := streams w; video_stream := s;
     audio_stream := audio_stream w; output_filename := output_filename w;
     temp_folder := temp_folder w; pct_completed := pct_completed w;
     ffmpeg_string := ffmpeg_string w |}.

Definition set_audio_stream (s : option stream) (w : window) : window :=
  {| audio := audio w; combobox_text := combobox_text w; yt := yt w;
     streams := streams w; video_stream := video_stream w;
     audio_stream := s; output_filename := output_filename w;
     temp_folder := temp_folder w; pct_completed := pct_completed w;
     ffmpeg_string := ffmpeg_string w |}.

Definition set_ffmpeg_string (s : string) (w : window) : window :=
  {| audio := audio w; combobox_text := combobox_text w; yt := yt w;
     streams := streams w; video_stream := video_stream w;
     audio_stream := audio_stream w; output_filename := output_filename w;
     temp_folder := temp_folder w; pct_completed := pct_completed w;
     ffmpeg_string := Some s |}.

Definition set_yt (y : option (list stream)) (w : window) : window :=
  {| audio := audio w; combobox_text := combobox_text w; yt := y;
     streams := streams w; video_stream := video_stream w;
     audio_stream := audio_stream w; output_filename := output_filename w;
     temp_folder := temp_folder w; pct_completed := pct_completed w;
     ffmpeg_string := ffmpeg_string w |}.

(** What the external tools do during one run: the outcome of the probe
    ([sp.run] raising when the tool cannot be started, else the exit status
    and what [json.loads] makes of the captured output), and of the merge
    process: [samples] are the values the polling loop finds in the shared
    slot [q[0]], one for each time [process.poll()] answers [None], after
    which the process has exited with [merge_returncode]. *)
Record probe_run : Type := {
  probe_fault : option exn;
  probe_returncode : Z;
  probe_json : res json
}.

Record merge_run : Type := {
  popen_fault : option exn;
  samples : list Z;
  merge_returncode : Z
}.

Record env : Type := {
  probe : probe_run;
  merge : merge_run
}.

(* ===================================================================== *)
(** * The pipeline *)
(* ===================================================================== *)

Fixpoint ends_with (c : ascii) (s : string) : bool :=
  match s with
  | EmptyString => false
  | String d EmptyString => Ascii.eqb d c
  | String _ r => ends_with c r
  end.

(** [os.path.join(a, b)] (POSIX). *)
Definition os_path_join (a b : string) : string :=
  if startswith "/" b then b
  else if String.eqb a "" || ends_with "/" a then a ++ b
  else a ++ "/" ++ b.

(** [f'{x}'] for an attribute that holds a string or [None]. *)
Definition format_value (x : option string) : string :=
  match x with
  | Some s => s
  | None => "None"
  end.

(** [query.get_by_itag(i)]: the stream with that itag, or [None]. *)
Definition get_by_itag (query : list stream) (i : Z) : option stream :=
  List.find (fun s => itag s =? i) query.

(** Reading a local variable that may not have been assigned. *)
Definition local {A} (v : option A) : M A :=
  match v with
  | Some a => ret a
  | None => raise UnboundLocalError
  end.

(** Reading an attribute of an object that may be [None]. *)
Definition attr_of {A} (v : option A) : M A :=
  match v with
  | Some a => ret a
  | None => raise AttributeError
  end.

(** [int(label.split(":")[1])] *)
Definition itag_of_label (label : string) : res Z :=
  res_bind (list_getitem (split_on ":" label) 1) py_int.

(** [try: v = <expr> except IndexError: self.statusBar().showMessage(...)]:
    the variable stays unassigned when [IndexError] is caught; any other
    exception goes on. *)
Definition try_assign_itag (expr : res Z) : M (option Z) :=
  match expr with
  | Ok z => ret (Some z)
  | Raise IndexError =>
      emit (ShowMessage "No audio stream available.");; ret None
  | Raise e => raise e
  end.

(** [MainWindow.on_download_progress(stream, chunk, bytes_remaining)];
    [chunk] is not used by the body. *)
Definition on_download_progress (s : stream) (bytes_remaining : Z) : M pyfloat :=
  let total_size := filesize s in
  let bytes_downloaded := total_size - bytes_remaining in
  ratio <- lift (int_truediv bytes_downloaded total_size);;
  set_self (set_pct_completed (float_mul_int ratio 100));;
  w <- self;;
  set_self (set_pct_completed (py_round (pct_completed w) 2));;
  w <- self;;
  emit (SetValue (pct_completed w));;
  emit (SetFormat "Downloading ... %0.2f %%" (pct_completed w));;
  ret (pct_completed w).

Fixpoint run_callbacks (s : stream) (feed : list Z) : M unit :=
  match feed with
  | [] => ret tt
  | bytes_remaining :: rest =>
      _ <- on_download_progress s bytes_remaining;;
      run_callbacks s rest
  end.

(** [stream.download(output_path=..., filename=...)]: the external download
    primitive at its interface.  It opens the file, calls the progress
    callback registered on the [YouTube] object once per chunk, and returns
    the path when the file is written and closed, or raises. *)
Definition Stream_download (s : stream) (output_path filename : string) : M string :=
  let file_path := os_path_join output_path filename in
  emit (DownloadCalled file_path);;
  write_file file_path;;
  run_callbacks s (progress_feed s);;
  match download_fault s with
  | Some e => raise e
  | None => emit (DownloadReturned file_path);; ret file_path
  end.

(** Lines 266-269 of [download_video]: run ffprobe on the video file and
    read the packet count out of its JSON output. *)
Definition ffprobe_total_frames (video_filename : string) (p : probe_run) : M pyfloat :=
  let ffprobe_string :=
    "ffprobe -v error -select_streams v:0 -count_packets -show_entries stream=nb_read_packets -of csv=p=0 -of json "
    ++ video_filename in
  emit (ProbeRun ffprobe_string);;
  match probe_fault p with
  | Some e => raise e
  | None =>
      emit (ProbeExited (probe_returncode p));;
      dict <- lift (probe_json p);;
      l <- lift (getitem_str dict "streams");;
      s0 <- lift (getitem_0 l);;
      v <- lift (getitem_str s0 "nb_read_packets");;
      lift (py_float v)
  end.

(** [progress_percent = (n_frame / tot_n_frames) * 100] *)
Definition merge_percent (n_frame : Z) (tot_n_frames : pyfloat) : res pyfloat :=
  res_bind (int_truediv_float n_frame tot_n_frames)
           (fun r => Ok (float_mul_int r 100)).

(** The [while True] loop of [download_video]. *)
Fixpoint poll_loop (tot_n_frames : pyfloat) (q : list Z) (returncode : Z) : M unit :=
  match q with
  | [] => emit (Polled (Some returncode))
  | n_frame :: later =>
      emit (Polled None);;
      emit Slept;;
      progress_percent <- lift (merge_percent n_frame tot_n_frames);;
      emit (SetValue progress_percent);;
      emit (SetFormat "Merging ... %0.2f %%" progress_percent);;
      poll_loop tot_n_frames later returncode
  end.

(** Lines 235-245 of [download_video]: the two itags and the two stream
    lookups. *)
Definition select_streams : M unit :=
  w <- self;;
  audio_itag <- try_assign_itag
                  (res_bind (list_getitem (audio w) 0) itag_of_label);;
  video_itag <- try_assign_itag (itag_of_label (combobox_text w));;
  query <- attr_of (yt w);;
  i <- local video_itag;;
  set_self (set_video_stream (get_by_itag query i));;
  query <- attr_of (streams w);;
  i <- local audio_itag;;
  set_self (set_audio_stream (get_by_itag query i)).

(** Lines 247-250: the two guarded downloads. *)
Definition download_streams : M unit :=
  w <- self;;
  match video_stream w with
  | Some s => _ <- Stream_download s (temp_folder w) "video.mp4";; ret tt
  | None => ret tt
  end;;
  w <- self;;
  match audio_stream w with
  | Some s => _ <- Stream_download s (temp_folder w) "audio.mp3";; ret tt
  | None => ret tt
  end.

(** Lines 273-298: start ffmpeg and the reader thread, poll until the
    process has exited, shut down, and return. *)
Definition merge_files (m : merge_run) (video_filename audio_filename : string)
    (tot_n_frames : pyfloat) : M string :=
  let cmd := "ffmpeg -y -loglevel error -i " ++ video_filename ++ " -i "
             ++ audio_filename
             ++ " -codec:v copy -codec:a copy -progress pipe:1" in
  set_self (set_ffmpeg_string cmd);;
  w <- self;;
  match popen_fault m with
  | Some x => raise x
  | None =>
      emit (Popen cmd (format_value (output_filename w)));;
      emit ReaderStarted;;
      poll_loop tot_n_frames (samples m) (merge_returncode m);;
      emit PipeClosed;;
      emit ReaderJoined;;
      emit (Waited (merge_returncode m));;
      emit (ShowMessage "Finished download.");;
      set_self (set_yt None);;
      ret "Download complete."
  end.

(** [MainWindow.download_video(progress_callback)] *)
Definition download_video (e : env) : M string :=
  select_streams;;
  download_streams;;
  w <- self;;
  emit (EmitProgress (pct_completed w));;
  emit (ShowMessage "Downloading video ...");;
  emit (ShowMessage "Merging video and audio streams...");;
  let audio_filename := os_path_join (temp_folder w) "audio.mp3" in
  let video_filename := os_path_join (temp_folder w) "video.mp4" in
  tot_n_frames <- ffprobe_total_frames video_filename (probe e);;
  merge_files (merge e) video_filename audio_filename tot_n_frames.

(** The part of [MainWindow.__init__] that the pipeline depends on.
    [tmp] is the name [tempfile.TemporaryDirectory()] picks for the
    directory it creates. *)
Definition MainWindow_init (tmp : string) (disk : filesystem) : window * filesystem :=
  ({| audio := [];
      combobox_text := "None";
      yt := None;
      streams := None;
      video_stream := None;
      audio_stream := None;
      output_filename := None;
      temp_folder := tmp;
      pct_completed := float_of_int 0;
      ffmpeg_string := None |},
   {| dirs := {[ tmp ]} ∪ dirs disk; files := files disk |}).

(* ===================================================================== *)
(** * The merge phase with its reader thread *)
(* ===================================================================== *)

(** The polling loop of [download_video], the thread that runs
    [progress_reader] and the ffmpeg process run side by side and meet in
    the pipe and in the one-element list [q].  Each of the three is
    deterministic; a run is fixed by the order in which they take their
    steps. *)

Inductive reader_pc : Type :=
| AtPoll                (* about to test [procs.poll()] *)
| AtReadline            (* about to call [procs.stdout.readline()] *)
| Returned
| Died (e : exn).

Inductive main_pc : Type :=
| MPoll                 (* about to test [process.poll()] *)
| MSleep                (* in [time.sleep(1)] *)
| MClose                (* about to call [process.stdout.close()] *)
| MJoin                 (* about to call [progress_reader_thread.join()] *)
| MWait                 (* about to call [process.wait()] *)
| MDone
| MDied (e : exn).

Record merge_state : Type := {
  lines_left : list string;   (* what the process has still to write *)
  exit_status : option Z;     (* what [poll()] answers *)
  exit_code : Z;              (* the status the process will exit with *)
  pipe : list string;         (* written and not yet read *)
  pipe_closed : bool;
  q0 : Z;                     (* [q[0]] *)
  reader : reader_pc;
  main : main_pc;
  sampled : list Z;           (* the values of [n_frame], oldest first *)
  log : list event            (* what the main thread did *)
}.

Inductive actor : Type := Child | Reader | Main.

(** The process writes its next line, or exits when none is left. *)
Definition child_step (s : merge_state) : option merge_state :=
  match exit_status s with
  | Some _ => None
  | None =>
      match lines_left s with
      | l :: ls =>
          Some {| lines_left := ls; exit_status := None;
                  exit_code := exit_code s;
                  pipe := pipe s ++ [l]; pipe_closed := pipe_closed s;
                  q0 := q0 s; reader := reader s; main := main s;
                  sampled := sampled s; log := log s |}
      | [] =>
          Some {| lines_left := []; exit_status := Some (exit_code s);
                  exit_code := exit_code s;
                  pipe := pipe s; pipe_closed := pipe_closed s;
                  q0 := q0 s; reader := reader s; main := main s;
                  sampled := sampled s; log := log s |}
      end
  end.

Definition with_reader (s : merge_state) (p : list string) (q : Z) (r : reader_pc)
  : merge_state :=
  {| lines_left := lines_left s; exit_status := exit_status s;
     exit_code := exit_code s;
     pipe := p; pipe_closed := pipe_closed s;
     q0 := q; reader := r; main := main s;
     sampled := sampled s; log := log s |}.

(** The body of the loop of [progress_reader] on the line just read: the new
    content of [q[0]], or the exception that ends the thread. *)
Definition progress_reader_line (progress_text : string) (q : Z) : res Z :=
  if startswith "frame=" progress_text
  then py_int (partition_last "=" progress_text)
  else Ok q.

(** One step of [progress_reader].  [readline] waits while the pipe is empty
    and the process runs; at end of file it returns the empty string. *)
Definition reader_step (s : merge_state) : option merge_state :=
  match reader s with
  | AtPoll =>
      match exit_status s with
      | Some _ => Some (with_reader s (pipe s) (q0 s) Returned)
      | None => Some (with_reader s (pipe s) (q0 s) AtReadline)
      end
  | AtReadline =>
      if pipe_closed s then Some (with_reader s (pipe s) (q0 s) (Died ValueError))
      else
        match pipe s, exit_status s with
        | l :: ls, _ =>
            match progress_reader_line l (q0 s) with
            | Ok q => Some (with_reader s ls q AtPoll)
            | Raise e => Some (with_reader s ls (q0 s) (Died e))
            end
        | [], Some _ =>
            match progress_reader_line "" (q0 s) with
            | Ok q => Some (with_reader s [] q AtPoll)
            | Raise e => Some (with_reader s [] (q0 s) (Died e))
            end
        | [], None => None
        end
  | Returned | Died _ => None
  end.

Definition with_main (s : merge_state) (closed : bool) (m : main_pc)
    (smp : list Z) (evs : list event) : merge_state :=
  {| lines_left := lines_left s; exit_status := exit_status s;
     exit_code := exit_code s;
     pipe := pipe s; pipe_closed := closed;
     q0 := q0 s; reader := reader s; main := m;
     sampled := sampled s ++ smp; log := log s ++ evs |}.

(** One step of the main thread from the loop on. *)
Definition main_step (tot_n_frames : pyfloat) (s : merge_state) : option merge_state :=
  match main s with
  | MPoll =>
      match exit_status s with
      | Some c => Some (with_main s (pipe_closed s) MClose [] [Polled (Some c)])
      | None => Some (with_main s (pipe_closed s) MSleep [] [Polled None])
      end
  | MSleep =>
      let n_frame := q0 s in
      match merge_percent n_frame tot_n_frames with
      | Ok progress_percent =>
          Some (with_main s (pipe_closed s) MPoll [n_frame]
                  [Slept; SetValue progress_percent;
                   SetFormat "Merging ... %0.2f %%" progress_percent])
      | Raise e =>
          Some (with_main s (pipe_closed s) (MDied e) [n_frame] [Slept])
      end
  | MClose => Some (with_main s true MJoin [] [PipeClosed])
  | MJoin =>
      match reader s with
      | Returned | Died _ => Some (with_main s (pipe_closed s) MWait [] [ReaderJoined])
      | _ => None
      end
  | MWait =>
      match exit_status s with
      | Some c => Some (with_main s (pipe_closed s) MDone [] [Waited c])
      | None => None
      end
  | MDone | MDied _ => None
  end.

Definition step (tot_n_frames : pyfloat) (a : actor) (s : merge_state)
  : option merge_state :=
  match a with
  | Child => child_step s
  | Reader => reader_step s
  | Main => main_step tot_n_frames s
  end.

(** Run a schedule; [None] when an actor is asked to move and cannot. *)
Fixpoint exec (tot_n_frames : pyfloat) (sched : list actor) (s : merge_state)
  : option merge_state :=
  match sched with
  | [] => Some s
  | a :: rest =>
      match step tot_n_frames a s with
      | Some s' => exec tot_n_frames rest s'
      | None => None
      end
  end.

(** The state right after [progress_reader_thread.start()]: [q = [0]]. *)
Definition merge_start (lines : list string) (code : Z) : merge_state :=
  {| lines_left := lines; exit_status := None; exit_code := code;
     pipe := []; pipe_closed := false;
     q0 := 0; reader := AtPoll; main := MPoll;
     sampled := []; log := [] |}.

(** The percentages handed to [self.progress.setValue], oldest first. *)
Fixpoint set_values (evs : list event) : list pyfloat :=
  match evs with
  | [] => []
  | SetValue p :: rest => p :: set_values rest
  | _ :: rest => set_values rest
  end.

(** The values a run reports: those set on the bar and those emitted. *)
Fixpoint reported (evs : list event) : list pyfloat :=
  match evs with
  | [] => []
  | SetValue p :: rest => p :: reported rest
  | EmitProgress p :: rest => p :: reported rest
  | _ :: rest => reported rest
  end.

(** Order on floats; NaN is not related to anything. *)
Definition fle (x y : pyfloat) : Prop :=
  match x, y with
  | Fin a, Fin b => (a <= b)%Q
  | Inf true, (Fin _ | Inf _) => True
  | Fin _, Inf false => True
  | Inf false, Inf false => True
  | _, _ => False
  end.

Definition in_percent_range (p : pyfloat) : Prop :=
  fle (float_of_int 0) p /\ fle p (float_of_int 100).

(** Each element is related to the next one. *)
Fixpoint chain {A} (ord : A -> A -> Prop) (l : list A) : Prop :=
  match l with
  | x :: ((y :: _) as rest) => ord x y /\ chain ord rest
  | _ => True
  end.

Definition nondecreasing (l : list pyfloat) : Prop := chain fle l.

(* ===================================================================== *)
(** * Notions used in the statements *)
(* ===================================================================== *)

(** The decimal numeral of a count, as ffprobe prints [nb_read_packets]. *)
Definition decimal (n : N) : string :=
  NilEmpty.string_of_uint (N.to_uint n).

(** The percentage of the specification for a download:
    [bytes_downloaded / total_size * 100], before rounding. *)
Definition exact_download_percent (total_size bytes_remaining : Z) : Q :=
  inject_Z (total_size - bytes_remaining) / inject_Z total_size * 100.


(** The events a computation adds to the trace. *)
Definition appends (st st' : state) (evs : list event) : Prop :=
  trace st' = (trace st ++ evs)%list.

(** Hoare triples over [M]; the postcondition sees the outcome. *)
Definition hoare {A} (P : state -> Prop) (c : M A) (Q : res A -> state -> Prop)
  : Prop :=
  forall st, P st -> Q (fst (c st)) (snd (c st)).

(** The stages of a run of [download_video], as its events reveal them. *)
Inductive stage : Type :=
| Idle
| Downloading (path : string)
| Downloaded
| Probing
| Probed
| Merging
| Exited (returncode : Z)
| Closed (returncode : Z)
| Joined (returncode : Z)
| Reaped
| Complete.

(** The stage after one more event, when the event may occur there. *)
Definition next_stage (s : stage) (ev : event) : option stage :=
  match s, ev with
  | Idle, ShowMessage _ => Some Idle
  | Idle, DownloadCalled p => Some (Downloading p)
  | Idle, EmitProgress _ => Some Downloaded
  | Downloading p, (SetValue _ | SetFormat _ _) => Some (Downloading p)
  | Downloading p, DownloadReturned p' =>
      if String.eqb p p' then Some Idle else None
  | Downloaded, ShowMessage _ => Some Downloaded
  | Downloaded, ProbeRun _ => Some Probing
  | Probing, ProbeExited _ => Some Probed
  | Probed, Popen _ _ => Some Merging
  | Merging, (ReaderStarted | Polled None | Slept | SetValue _ | SetFormat _ _) =>
      Some Merging
  | Merging, Polled (Some c) => Some (Exited c)
  | Exited c, PipeClosed => Some (Closed c)
  | Closed c, ReaderJoined => Some (Joined c)
  | Joined c, Waited c' => if c =? c' then Some Reaped else None
  | Reaped, ShowMessage _ => Some Complete
  | _, _ => None
  end.

Fixpoint run_stages (s : stage) (evs : list event) : option stage :=
  match evs with
  | [] => Some s
  | ev :: rest =>
      match next_stage s ev with
      | Some s' => run_stages s' rest
      | None => None
      end
  end.

(** The trace has grown from [t0] by events that lead from [Idle] to [s]. *)
Definition at_stage (t0 : list event) (s : stage) (st : state) : Prop :=
  exists evs, trace st = (t0 ++ evs)%list /\ run_stages Idle evs = Some s.

(** The stages in which the polling loop has not yet seen the exit. *)
Definition before_exit (s : stage) : Prop :=
  match s with
  | Idle | Downloading _ | Downloaded | Probing | Probed | Merging => True
  | _ => False
  end.


(** The progress feed of the transcoding tool in the scenario of the
    specification, and the three lines as [readline] returns them. *)
Definition newline : string := String (ascii_of_nat 10) EmptyString.

Definition scenario_lines : list string :=
  ["frame=100" ++ newline; "frame=500" ++ newline; "frame=1000" ++ newline].

(** The last value handed to [setValue], if there is one. *)
Definition last_set_value (evs : list event) : option pyfloat :=
  List.last (List.map Some (set_values evs)) None.

(** Non-decreasing and non-increasing lists of integers. *)
Definition ascending (l : list Z) : Prop := chain Z.le l.

Definition descending (l : list Z) : Prop := chain Z.ge l.

(* ===================================================================== *)
(** * Concrete runs *)
(* ===================================================================== *)

(** The attributes that [line_edit_changed], [available_resolutions] and
    [download_manager] assign before a download starts: the stream query,
    the audio labels, the entry chosen in the combo box and the output
    path. *)
Definition loaded (w : window) (catalog : list stream) (labels : list string)
    (choice output : string) : window :=
  {| audio := labels; combobox_text := choice;
     yt := Some catalog; streams := Some catalog;
     video_stream := video_stream w; audio_stream := audio_stream w;
     output_filename := Some output; temp_folder := temp_folder w;
     pct_completed := pct_completed w; ffmpeg_string := ffmpeg_string w |}.

Definition example_video : stream :=
  {| itag := 137; filesize := 1000; progress_feed := [600; 200; 0];
     download_fault := None |}.

Definition example_audio : stream :=
  {| itag := 140; filesize := 300; progress_feed := [100; 0];
     download_fault := None |}.

Definition empty_disk : filesystem := {| dirs := ∅; files := ∅ |}.

(** A window just built, then loaded with a video that has both streams. *)
Definition example_state : state :=
  let '(w, disk) := MainWindow_init "/tmp/tmpx" empty_disk in
  {| win := loaded w [example_video; example_audio] ["128kbps itag:140"]
              "1080 itag:137" "/home/user/Title.mp4";
     fs := disk;
     trace := [] |}.

(** The same window when the video offers no audio entry. *)
Definition example_state_no_audio : state :=
  let '(w, disk) := MainWindow_init "/tmp/tmpx" empty_disk in
  {| win := loaded w [example_video] [] "1080 itag:137" "/home/user/Title.mp4";
     fs := disk;
     trace := [] |}.

(** The same window when the first audio label names an itag that the
    loaded video does not have. *)
Definition example_state_stale_audio : state :=
  let '(w, disk) := MainWindow_init "/tmp/tmpx" empty_disk in
  {| win := loaded w [example_video; example_audio]
              ["160kbps itag:141"; "128kbps itag:140"]
              "1080 itag:137" "/home/user/Title.mp4";
     fs := disk;
     trace := [] |}.

(** ffprobe's JSON output for a count given as a numeral. *)
Definition probe_output (count : string) : json :=
  JDict [("programs", JList []);
         ("streams", JList [JDict [("nb_read_packets", JStr count)]])].

Definition probe_with_count (returncode : Z) (count : string) : probe_run :=
  {| probe_fault := None; probe_returncode := returncode;
     probe_json := Ok (probe_output count) |}.

Definition example_env (count : string) (q : list Z) (returncode : Z) : env :=
  {| probe := probe_with_count 0 count;
     merge := {| popen_fault := None; samples := q;
                 merge_returncode := returncode |} |}.

(** A schedule of the merge phase in which the process writes its last line
    and exits while the main thread sleeps after its second sample. *)
Definition early_exit_schedule : list actor :=
  [Main; Child; Reader; Reader; Main; Main; Child; Reader; Reader; Main;
   Child; Child; Main; Main; Reader; Main; Main].

(** A schedule in which the reader stores the last frame before the main
    thread wakes up. *)
Definition late_sample_schedule : list actor :=
  [Main; Child; Child; Child; Reader; Reader; Reader; Reader; Reader; Reader;
   Main; Child; Main; Main; Reader; Main; Main].

(** The percentage that one callback reports for [bytes_remaining = r]. *)
Definition reports_download (total : Z) (r : Z) (p : pyfloat) : Prop :=
  exists q : Q,
    p = Fin q
    /\ (q == inject_Z (Qround_half_even (exact_download_percent total r * 100))
            / 100)%Q.

(** Started at stage [p], the computation [c] adds events that lead to stage
    [q] when it returns, and to some stage allowed by [E] when it raises. *)
Definition moves {A} (t0 : list event) (p : stage) (c : M A) (q : stage)
    (E : stage -> Prop) : Prop :=
  hoare (at_stage t0 p) c
        (fun r st =>
           match r with
           | Ok _ => at_stage t0 q st
           | Raise _ => exists s, E s /\ at_stage t0 s st
           end).


(** How far a stage is along the run. *)
Definition stage_rank (s : stage) : nat :=
  match s with
  | Idle | Downloading _ => 0
  | Downloaded => 1
  | Probing => 2
  | Probed => 3
  | Merging => 4
  | Exited _ => 5
  | Closed _ => 6
  | Joined _ => 7
  | Reaped => 8
  | Complete => 9
  end.

(** [c] keeps the property [I] of the state, whether it returns or raises. *)
Definition keeps {A} (I : state -> Prop) (c : M A) : Prop :=
  forall st, I st -> I (snd (c st)).

(** The two scratch files of a window. *)
Definition scratch_files (w : window) : gset string :=
  {[ os_path_join (temp_folder w) "video.mp4";
     os_path_join (temp_folder w) "audio.mp3" ]}.

(** The events that were added to the trace between two states. *)
Definition new_events (st st' : state) : list event :=
  skipn (List.length (trace st)) (trace st').

(** The events of [download_video e] started in [st]. *)
Definition events_of_run (e : env) (st : state) : list event :=
  new_events st (snd (download_video e st)).

(** The events from the observation of the exit status on. *)
Definition is_shutdown_event (ev : event) : Prop :=
  match ev with
  | Polled (Some _) | PipeClosed | ReaderJoined | Waited _ => True
  | _ => False
  end.

(** The same environment, but ffmpeg exits with status [c]. *)
Definition with_returncode (c : Z) (e : env) : env :=
  {| probe := probe e;
     merge := {| popen_fault := popen_fault (merge e);
                 samples := samples (merge e);
                 merge_returncode := c |} |}.

(** The events of the merge: starting ffmpeg and its reader, polling, and
    sleeping before a percentage is computed. *)
Definition is_merge_event (ev : event) : Prop :=
  match ev with
  | Popen _ _ | ReaderStarted | Polled _ | Slept => True
  | _ => False
  end.

(** Between [st0] and [st] the scratch folder of the window is the same, no
    directory was created or removed, no file was removed, and the only
    files that may have been created are the two scratch files. *)
Definition scratch_kept (st0 st : state) : Prop :=
  temp_folder (win st) = temp_folder (win st0)
  /\ dirs (fs st) = dirs (fs st0)
  /\ files (fs st0) ⊆ files (fs st)
  /\ files (fs st) ⊆ files (fs st0) ∪ scratch_files (win st0).


(** The strings made of decimal digits only. *)
Fixpoint only_digits (s : string) : bool :=
  match s with
  | EmptyString => true
  | String c r => is_digit c && only_digits r
  end.


(** The frame number that a line of the progress feed carries, when it is a
    [frame=] line with a readable number. *)
Definition frame_of (line : string) : option Z :=
  if startswith "frame=" line
  then match py_int (partition_last "=" line) with
       | Ok z => Some z
       | Raise _ => None
       end
  else None.

Fixpoint frames (lines : list string) : list Z :=
  match lines with
  | [] => []
  | l :: rest =>
      match frame_of l with
      | Some z => z :: frames rest
      | None => frames rest
      end
  end.

(** What holds in every state of the merge phase when the frame numbers of
    the feed do not decrease: the slot is not above any frame number still
    to come, the samples taken so far are ordered and not above the slot,
    every value of the slot and every sample satisfies [P], each sample has
    been turned into the percentage that was handed to the bar, and the main
    thread has not died. *)
Definition merge_invariant (P : Z -> Prop) (tot : pyfloat) (s : merge_state) : Prop :=
  ascending (q0 s :: frames (pipe s ++ lines_left s))
  /\ ascending (sampled s ++ [q0 s])
  /\ Forall P (q0 s :: frames (pipe s ++ lines_left s))
  /\ Forall P (sampled s)
  /\ Forall2 (fun n p => merge_percent n tot = Ok p) (sampled s) (set_values (log s))
  /\ (forall e, main s <> MDied e).

(* ===================================================================== *)
(** * The stream catalog, the labels and the combo box *)
(* ===================================================================== *)

(** [str(z)] for an [int], as an f-string prints it. *)
Definition py_str_int (z : Z) : string :=
  if z <? 0 then "-" ++ decimal (Z.to_N (- z)) else decimal (Z.to_N z).

(** The attributes of a pytube stream that the queries of
    [available_resolutions] read.  [resolution] is [None] on an audio
    stream and [abr] is [None] on a video-only stream. *)
Record stream_info : Type := {
  info_itag : Z;
  resolution : option string;
  abr : option string;
  mime_type : string;
  is_adaptive : bool
}.

(** The keyword arguments that [available_resolutions] passes to
    [StreamQuery.filter]; an argument that is not passed is [None]. *)
Record criteria : Type := {
  by_resolution : option string;
  by_abr : option string;
  by_mime_type : option string;
  by_adaptive : option bool
}.

Definition want_resolution (r : string) : criteria :=
  {| by_resolution := Some r; by_abr := None; by_mime_type := None;
     by_adaptive := None |}.

Definition want_resolution_adaptive (r : string) (a : bool) : criteria :=
  {| by_resolution := Some r; by_abr := None; by_mime_type := None;
     by_adaptive := Some a |}.

Definition want_abr (b : string) : criteria :=
  {| by_resolution := None; by_abr := Some b; by_mime_type := None;
     by_adaptive := None |}.

Definition want_abr_mime_type (b m : string) : criteria :=
  {| by_resolution := None; by_abr := Some b; by_mime_type := Some m;
     by_adaptive := None |}.

(** [attribute == wanted] for an attribute that may be [None]. *)
Definition attribute_is (attribute : option string) (wanted : string) : bool :=
  match attribute with
  | Some v => String.eqb v wanted
  | None => false
  end.

(** The lists of [self] that [available_resolutions] and [dragEnterEvent]
    write, and the entries of the combo box. *)
Record selector : Type := {
  resolutions : list string;      (* self.resolutions *)
  audio_labels : list string;     (* self.audio *)
  combobox_items : list string    (* the entries of self.combobox *)
}.

(** A statement over the selector; the lists keep what was written to them
    when a later statement raises. *)
Definition stmt : Type := selector -> res unit * selector.

Definition seq (c1 c2 : stmt) : stmt :=
  fun g =>
    match c1 g with
    | (Ok _, g') => c2 g'
    | (Raise e, g') => (Raise e, g')
    end.

Fixpoint block (body : list stmt) : stmt :=
  match body with
  | [] => fun g => (Ok tt, g)
  | c :: rest => seq c (block rest)
  end.

(** [l.remove(x)]: drops the first occurrence of [x]; [None] stands for the
    [ValueError] of a list that does not hold [x]. *)
Fixpoint list_remove (x : string) (l : list string) : option (list string) :=
  match l with
  | [] => None
  | y :: rest =>
      if String.eqb y x then Some rest
      else option_map (cons y) (list_remove x rest)
  end.

Definition append_resolution (label : string) (g : selector) : selector :=
  {| resolutions := resolutions g ++ [label];
     audio_labels := audio_labels g;
     combobox_items := combobox_items g |}.

Definition append_audio (label : string) (g : selector) : selector :=
  {| resolutions := resolutions g;
     audio_labels := audio_labels g ++ [label];
     combobox_items := combobox_items g |}.

(** [self.resolutions.remove("None")] *)
Definition remove_None : stmt :=
  fun g =>
    match list_remove "None" (resolutions g) with
    | Some l =>
        (Ok tt, {| resolutions := l; audio_labels := audio_labels g;
                   combobox_items := combobox_items g |})
    | None => (Raise ValueError, g)
    end.

(** [self.combobox.clear()] *)
Definition combobox_clear : stmt :=
  fun g =>
    (Ok tt, {| resolutions := resolutions g; audio_labels := audio_labels g;
               combobox_items := [] |}).

(** [self.combobox.addItems(self.resolutions)] *)
Definition combobox_addItems : stmt :=
  fun g =>
    (Ok tt, {| resolutions := resolutions g; audio_labels := audio_labels g;
               combobox_items := combobox_items g ++ resolutions g |}).

Section Catalog.
(** Whether a stream passes [filter(adaptive=a)].  This test is pytube's;
    the model is given it and makes no assumption about it. *)
Variable adaptive_passes : bool -> stream_info -> bool.

(** Whether a stream passes every keyword argument of a [filter] call. *)
Definition passes (c : criteria) (s : stream_info) : bool :=
  match by_resolution c with
  | Some r => attribute_is (resolution s) r
  | None => true
  end
  && match by_abr c with
     | Some b => attribute_is (abr s) b
     | None => true
     end
  && match by_mime_type c with
     | Some m => String.eqb (mime_type s) m
     | None => true
     end
  && match by_adaptive c with
     | Some a => adaptive_passes a s
     | None => true
     end.

(** [query.filter(...)]: the streams that pass, in the order of the
    query. *)
Definition query_filter (c : criteria) (query : list stream_info)
  : list stream_info :=
  List.filter (passes c) query.

(** [query.first()]: the first stream, or [None]. *)
Definition first (query : list stream_info) : option stream_info :=
  List.hd_error query.

(** [f'<text>{query.first().itag}'] *)
Definition label_of (text : string) (query : list stream_info) : res string :=
  match first query with
  | Some s => Ok (text ++ py_str_int (info_itag s))
  | None => Raise AttributeError
  end.

(** [if <test>: <list>.append(f'<text>{<pick>.first().itag}')]: a query is
    true when it holds a stream. *)
Definition if_append (append : string -> selector -> selector)
    (test : list stream_info) (text : string) (pick : list stream_info) : stmt :=
  fun g =>
    match test with
    | [] => (Ok tt, g)
    | _ :: _ =>
        match label_of text pick with
        | Ok label => (Ok tt, append label g)
        | Raise e => (Raise e, g)
        end
    end.

(** [MainWindow.available_resolutions()], on the streams of [self.yt]. *)
Definition available_resolutions (streams_of_yt : list stream_info) : stmt :=
  let filter c := query_filter c streams_of_yt in
  block
    [ if_append append_resolution
        (filter (want_resolution "2160p")) "2160 itag:"
        (filter (want_resolution "2160p"));
      if_append append_resolution
        (filter (want_resolution "1440p")) "1440 itag:"
        (filter (want_resolution "1440p"));
      if_append append_resolution
        (filter (want_resolution "1080p")) "1080 itag:"
        (filter (want_resolution "1080p"));
      if_append append_resolution
        (filter (want_resolution_adaptive "720p" true)) "720 itag:"
        (filter (want_resolution_adaptive "720p" true));
      if_append append_resolution
        (filter (want_resolution_adaptive "720p" false)) "720 p itag:"
        (filter (want_resolution_adaptive "720p" false));
      if_append append_resolution
        (filter (want_resolution_adaptive "480p" false)) "480 p itag:"
        (filter (want_resolution_adaptive "480p" false));
      if_append append_resolution
        (filter (want_resolution_adaptive "360p" false)) "360 p itag:"
        (filter (want_resolution_adaptive "360p" false));
      if_append append_audio
        (filter (want_abr_mime_type "160kbps" "audio/mp4")) "160kbps itag:"
        (filter (want_abr "160kbps"));
      if_append append_audio
        (filter (want_abr_mime_type "128kbps" "audio/mp4")) "128kbps itag:"
        (filter (want_abr "128kbps"));
      if_append append_audio
        (filter (want_abr_mime_type "70kbps" "audio/mp4")) "70kbps itag:"
        (filter (want_abr "70kbps"));
      if_append append_audio
        (filter (want_abr_mime_type "48kbps" "audio/mp4")) "48kbps itag:"
        (filter (want_abr "48kbps"));
      remove_None;
      combobox_clear;
      combobox_addItems ].
End Catalog.

(** What [MainWindow.__init__] gives the three lists (lines 116, 119 and
    138). *)
Definition selector_init : selector :=
  {| resolutions := ["None"]; audio_labels := [];
     combobox_items := ["None"] |}.

(** Whether [dragEnterEvent] accepted the event. *)
Inductive drag_answer : Type := Accepted | Ignored.

(** [MainWindow.dragEnterEvent(event)], on the lists: [has_urls] is what
    [event.mimeData().hasUrls()] would answer.  The condition of the [if]
    names the method [hasUrls] and does not call it, so the test sees the
    method object, which is true. *)
Definition dragEnterEvent (has_urls : bool) (g : selector)
  : drag_answer * selector :=
  let hasUrls_method_is_true := true in
  if hasUrls_method_is_true
  then (Accepted, {| resolutions := ["None"];
                     audio_labels := audio_labels g;
                     combobox_items := combobox_items g |})
  else (Ignored, g).

(** The stream objects of a query and the attributes the labels are made
    from belong to the same streams, in the same order. *)
Definition describes (catalog : list stream_info) (query : list stream) : Prop :=
  List.map info_itag catalog = List.map itag query.

(** The labels that name a stream of the catalog: what follows the colon
    reads back as the itag of a stream that meets [want]. *)
Definition names_stream (want : stream_info -> Prop) (catalog : list stream_info)
    (label : string) : Prop :=
  exists s, In s catalog /\ want s /\ itag_of_label label = Ok (info_itag s).

(* ===================================================================== *)
(** * The worker and the slots of the window *)
(* ===================================================================== *)

(** What the slots connected in [download_worker], and the [except] branch
    of [Worker.run], do to the terminal and to the progress bar. *)
Inductive gui_effect : Type :=
| PrintedTraceback (tb : string)          (* traceback.print_exc() *)
| PrintedProgress (n : pyfloat)           (* print(f"Progress: {n}") *)
| PrintedOutput (s : string)              (* print(f'Print output: {s}') *)
| BarSetValue (p : pyfloat)               (* self.progress.setValue(p) *)
| BarSetFormat (text : string).           (* self.progress.setFormat(text) *)

(** [MainWindow.progress_fn(n)] *)
Definition progress_fn (n : pyfloat) : list gui_effect := [PrintedProgress n].

(** [MainWindow.print_output(s)] *)
Definition print_output (s : string) : list gui_effect := [PrintedOutput s].

(** [MainWindow.download_complete()] *)
Definition download_complete : list gui_effect :=
  [BarSetValue (float_of_int 0); BarSetFormat "Download complete!"].

(** The connections made in [download_worker]: [result], [finished] and
    [progress] have a slot; nothing is connected to [error]. *)
Definition connected_slot (s : signal string) : list gui_effect :=
  match s with
  | result r => print_output r
  | finished => download_complete
  | progress n => progress_fn n
  | error _ _ _ => []
  end.

Definition deliver (w : worker_effect string) : list gui_effect :=
  match w with
  | PrintExc tb => [PrintedTraceback tb]
  | Emit s => connected_slot s
  end.

(** The [progress] signals that the callback emits: one for each
    [progress_callback.emit] of the trace. *)
Fixpoint progress_emitted (evs : list event) : list (worker_effect string) :=
  match evs with
  | [] => []
  | EmitProgress p :: rest => Emit (progress p) :: progress_emitted rest
  | _ :: rest => progress_emitted rest
  end.

(** [MainWindow.download_worker()] together with the run of the worker it
    starts: the effects of the slots, in the order in which the signals are
    emitted, and the state the run leaves. *)
Definition download_worker (format_exc : exn -> string) (e : env) (st : state)
  : list gui_effect * state :=
  let '(outcome, st') := download_video e st in
  (List.flat_map deliver
     (progress_emitted (new_events st st') ++ Worker_run format_exc outcome),
   st').

Definition set_output_filename (o : option string) (w : window) : window :=
  {| audio := audio w; combobox_text := combobox_text w;
     yt := yt w; streams := streams w;
     video_stream := video_stream w; audio_stream := audio_stream w;
     output_filename := o; temp_folder := temp_folder w;
     pct_completed := pct_completed w; ffmpeg_string := ffmpeg_string w |}.

(** [MainWindow.download_manager()]: [save_folder] is what the folder dialog
    returned (the empty string when it was cancelled) and [title] is
    [self.title]. *)
Definition download_manager (format_exc : exn -> string) (e : env)
    (save_folder : string) (title : option string) (st : state)
  : list gui_effect * state :=
  if String.eqb save_folder ""
  then ([], snd (emit (ShowMessage "No download path provided.") st))
  else
    download_worker format_exc e
      (snd (set_self
              (set_output_filename
                 (Some (os_path_join save_folder (format_value title ++ ".mp4"))))
              st)).

(* ===================================================================== *)
(** * Notions for the runs of the window *)
(* ===================================================================== *)

(** The attributes of the window that a run of [download_video] only
    reads. *)
Definition same_inputs (st0 st : state) : Prop :=
  audio (win st) = audio (win st0)
  /\ combobox_text (win st) = combobox_text (win st0)
  /\ streams (win st) = streams (win st0)
  /\ output_filename (win st) = output_filename (win st0)
  /\ temp_folder (win st) = temp_folder (win st0).

(** The events of the iterations of the polling loop for the samples
    [q]: they stop after the sleep of the iteration whose percentage cannot
    be computed. *)
Fixpoint iterations (tot_n_frames : pyfloat) (q : list Z) : list event :=
  match q with
  | [] => []
  | n_frame :: later =>
      match merge_percent n_frame tot_n_frames with
      | Ok progress_percent =>
          [Polled None; Slept; SetValue progress_percent;
           SetFormat "Merging ... %0.2f %%" progress_percent]
          ++ iterations tot_n_frames later
      | Raise _ => [Polled None; Slept]
      end
  end.

(** What the main thread has logged when it stands at [pc], after the
    samples [q], for a process that exits with [code]. *)
Definition log_at (tot_n_frames : pyfloat) (q : list Z) (code : Z) (pc : main_pc)
  : list event :=
  iterations tot_n_frames q ++
  match pc with
  | MPoll => []
  | MSleep => [Polled None]
  | MClose => [Polled (Some code)]
  | MJoin => [Polled (Some code); PipeClosed]
  | MWait => [Polled (Some code); PipeClosed; ReaderJoined]
  | MDone => [Polled (Some code); PipeClosed; ReaderJoined; Waited code]
  | MDied _ => []
  end.

Definition reader_ended (r : reader_pc) : bool :=
  match r with
  | Returned | Died _ => true
  | _ => false
  end.

(** The samples whose percentage can be computed. *)
Definition sample_ok (tot : pyfloat) (n : Z) : Prop :=
  exists p, merge_percent n tot = Ok p.

(** What holds in every state of the merge phase: the exit status, once
    there is one, is the code of the process and no line is left to write;
    the main thread has logged the iterations of its samples and the steps
    up to the place it stands at; past the loop it has seen the exit, past
    [close] the pipe is closed, and past [join] the reader has ended; the
    percentage of every sample could be computed, but for the last one when
    the main thread has died. *)
Definition merge_protocol (tot : pyfloat) (code : Z) (s : merge_state) : Prop :=
  exit_code s = code
  /\ (forall c, exit_status s = Some c -> c = code /\ lines_left s = [])
  /\ log s = log_at tot (sampled s) code (main s)
  /\ match main s with
     | MPoll | MSleep => pipe_closed s = false
     | MClose => pipe_closed s = false /\ exit_status s = Some code
     | MJoin => pipe_closed s = true /\ exit_status s = Some code
     | MWait | MDone =>
         pipe_closed s = true /\ exit_status s = Some code
         /\ reader_ended (reader s) = true
     | MDied _ => True
     end
  /\ match main s with
     | MDied x =>
         exists q n, sampled s = (q ++ [n])%list
                     /\ Forall (sample_ok tot) q
                     /\ merge_percent n tot = Raise x
     | _ => Forall (sample_ok tot) (sampled s)
     end.


(** The statement [c] returns and appends the labels [vs] to
    [self.resolutions] and the labels [ls] to [self.audio], whatever the
    lists hold. *)
Definition adds_labels (c : stmt) (vs ls : list string) : Prop :=
  forall g,
    c g = (Ok tt, {| resolutions := resolutions g ++ vs;
                     audio_labels := audio_labels g ++ ls;
                     combobox_items := combobox_items g |}).

(** The label that one [if ...: ....append(...)] statement makes. *)
Definition label_list (test : list stream_info) (text : string)
    (pick : list stream_info) : list string :=
  match test, pick with
  | _ :: _, s :: _ => [text ++ py_str_int (info_itag s)]
  | _, _ => []
  end.

(** The lists after the first video has been loaded into a new window. *)
Definition first_load (adaptive_passes : bool -> stream_info -> bool)
    (catalog : list stream_info) : selector :=
  snd (available_resolutions adaptive_passes catalog selector_init).

Fixpoint no_colon (s : string) : bool :=
  match s with
  | EmptyString => true
  | String c r => negb (Ascii.eqb c ":") && no_colon r
  end.

Definition has_resolution (s : stream_info) : Prop := resolution s <> None.

Definition has_abr (s : stream_info) : Prop := abr s <> None.

(** A catalog with one video stream and three audio streams; the first
    stream with 160kbps is not [audio/mp4]. *)
Definition example_catalog : list stream_info :=
  [ {| info_itag := 137; resolution := Some "1080p"; abr := None;
       mime_type := "video/mp4"; is_adaptive := true |};
    {| info_itag := 251; resolution := None; abr := Some "160kbps";
       mime_type := "audio/webm"; is_adaptive := true |};
    {| info_itag := 141; resolution := None; abr := Some "160kbps";
       mime_type := "audio/mp4"; is_adaptive := true |};
    {| info_itag := 140; resolution := None; abr := Some "128kbps";
       mime_type := "audio/mp4"; is_adaptive := true |} ].

(** The stream objects of [example_catalog]. *)
Definition example_query : list stream :=
  [ example_video;
    {| itag := 251; filesize := 400; progress_feed := [0]; download_fault := None |};
    {| itag := 141; filesize := 500; progress_feed := [0]; download_fault := None |};
    example_audio ].

(** A catalog without audio stream. *)
Definition example_catalog_video_only : list stream_info :=
  [ {| info_itag := 137; resolution := Some "1080p"; abr := None;
       mime_type := "video/mp4"; is_adaptive := true |} ].

(** One way [filter] may treat [adaptive=a]. *)
Definition example_adaptive (a : bool) (s : stream_info) : bool :=
  Bool.eqb (is_adaptive s) a.

(** The events that do not start ffmpeg, or start it with [output] as the
    file to write. *)
Definition writes_to (output : string) (ev : event) : Prop :=
  match ev with
  | Popen _ out => out = output
  | _ => True
  end.

(** Between [st0] and [st] the attributes that a run only reads are the
    same, [self.yt] is the same, and ffmpeg, if it was started, was told to
    write the output file of [st0]. *)
Definition run_frame (st0 st : state) : Prop :=
  same_inputs st0 st
  /\ yt (win st) = yt (win st0)
  /\ exists evs,
       trace st = (trace st0 ++ evs)%list
       /\ Forall (writes_to (format_value (output_filename (win st0)))) evs.

(** The assignments to [self] that leave the read-only attributes and
    [self.yt] as they are. *)
Definition preserves_inputs (f : window -> window) : Prop :=
  forall w,
    audio (f w) = audio w /\ combobox_text (f w) = combobox_text w
    /\ streams (f w) = streams w /\ output_filename (f w) = output_filename w
    /\ temp_folder (f w) = temp_folder w /\ yt (f w) = yt w.

(** [c] keeps [I] when it raises; when it returns, it has kept [I] up to a
    last assignment [self.yt = None]. *)
Definition keeps_until_reset {A} (I : state -> Prop) (c : M A) : Prop :=
  forall st, I st ->
    match fst (c st) with
    | Raise _ => I (snd (c st))
    | Ok _ => exists st1, I st1 /\ snd (c st) = snd (set_self (set_yt None) st1)
    end.

(** The values handed to [progress_callback.emit], oldest first. *)
Fixpoint emitted_progress (evs : list event) : list pyfloat :=
  match evs with
  | [] => []
  | EmitProgress p :: rest => p :: emitted_progress rest
  | _ :: rest => emitted_progress rest
  end.

(** The run of ffmpeg as the main thread saw it in the state [s] of the
    merge phase: the samples it took and the exit status. *)
Definition observed_run (s : merge_state) : merge_run :=
  {| popen_fault := None; samples := sampled s;
     merge_returncode := exit_code s |}.


(* ===================================================================== *)
(** * Arithmetic of percentages *)
(* ===================================================================== *)

Ltac qcompare H :=
  match type of H with
  | Qcompare _ _ = Eq => apply (proj2 (Qeq_alt _ _)) in H
  | Qcompare _ _ = Lt => apply (proj2 (Qlt_alt _ _)) in H
  | Qcompare _ _ = Gt => apply (proj2 (Qgt_alt _ _)) in H
  end.

Lemma Qzero_false_iff (q : Q) : Qzero q = false <-> ~ (q == 0)%Q.
Proof.
  unfold Qzero. destruct (Qcompare q 0) eqn:C; qcompare C.
  - split; [discriminate | tauto].
  - split; [intros _ H; lra | reflexivity].
  - split; [intros _ H; lra | reflexivity].
Qed.


Lemma Qround_half_even_inject (k : Z) : Qround_half_even (inject_Z k) = k.
Proof.
  unfold Qround_half_even. rewrite Qfloor_Z.
  replace (Qcompare (inject_Z k - inject_Z k) (1 # 2)) with Lt; [reflexivity |].
  symmetry. apply (proj1 (Qlt_alt _ _)). lra.
Qed.

Lemma Qround_half_even_mono (x y : Q) :
  (x <= y)%Q -> Qround_half_even x <= Qround_half_even y.
Proof.
  intros Hxy.
  pose proof (Qfloor_resp_le _ _ Hxy) as Hf.
  pose proof (Qfloor_le x) as Hxlo. pose proof (Qlt_floor x) as Hxhi.
  pose proof (Qfloor_le y) as Hylo. pose proof (Qlt_floor y) as Hyhi.
  rewrite inject_Z_plus in Hxhi, Hyhi. change (inject_Z 1) with 1%Q in Hxhi, Hyhi.
  unfold Qround_half_even.
  destruct (Z.eq_dec (Qfloor x) (Qfloor y)) as [E | NE].
  - rewrite <- E in *.
    destruct (Qcompare (x - inject_Z (Qfloor x)) (1 # 2)) eqn:Cx;
      destruct (Qcompare (y - inject_Z (Qfloor x)) (1 # 2)) eqn:Cy;
      try (destruct (Z.even (Qfloor x))); try lia;
      qcompare Cx; qcompare Cy; exfalso; lra.
  - assert (Qfloor x + 1 <= Qfloor y) by lia.
    destruct (Qcompare (x - inject_Z (Qfloor x)) (1 # 2));
      destruct (Qcompare (y - inject_Z (Qfloor y)) (1 # 2));
      try (destruct (Z.even (Qfloor x))); try (destruct (Z.even (Qfloor y))); lia.
Qed.

Lemma Qround_half_even_proper (x y : Q) :
  (x == y)%Q -> Qround_half_even x = Qround_half_even y.
Proof.
  intros E. apply Z.le_antisymm; apply Qround_half_even_mono; lra.
Qed.

(** What the two percentage computations return on finite inputs. *)
Lemma merge_percent_finite (n : Z) (t : Q) :
  ~ (t == 0)%Q ->
  merge_percent n (Fin t) = Ok (Fin (Qred (Qred (inject_Z n / t) * inject_Z 100))).
Proof.
  intros Ht. unfold merge_percent, int_truediv_float, float_truediv, float_of_int.
  apply Qzero_false_iff in Ht. rewrite Ht. reflexivity.
Qed.

Lemma merge_percent_value (n : Z) (t : Q) :
  ~ (t == 0)%Q ->
  exists q, merge_percent n (Fin t) = Ok (Fin q) /\ (q == inject_Z n / t * 100)%Q.
Proof.
  intros Ht. eexists. split; [apply merge_percent_finite; assumption |].
  rewrite !Qred_correct. reflexivity.
Qed.

Lemma merge_percent_mono (n1 n2 : Z) (t : Q) (p1 p2 : pyfloat) :
  (0 < t)%Q -> n1 <= n2 ->
  merge_percent n1 (Fin t) = Ok p1 -> merge_percent n2 (Fin t) = Ok p2 ->
  fle p1 p2.
Proof.
  intros Ht Hn H1 H2.
  assert (Hnz : ~ (t == 0)%Q) by lra.
  rewrite (merge_percent_finite _ _ Hnz) in H1.
  rewrite (merge_percent_finite _ _ Hnz) in H2.
  injection H1 as <-. injection H2 as <-. simpl.
  rewrite !Qred_correct.
  assert (Hq : (inject_Z n1 <= inject_Z n2)%Q) by (rewrite <- Zle_Qle; exact Hn).
  apply Qmult_le_compat_r; [| discriminate].
  apply Qmult_le_compat_r; [exact Hq |].
  apply Qlt_le_weak, Qinv_lt_0_compat, Ht.
Qed.

Lemma merge_percent_range (n : Z) (t : Q) (p : pyfloat) :
  (0 < t)%Q -> 0 <= n -> (inject_Z n <= t)%Q ->
  merge_percent n (Fin t) = Ok p -> in_percent_range p.
Proof.
  intros Ht Hn Hnt H.
  assert (Hnz : ~ (t == 0)%Q) by lra.
  rewrite (merge_percent_finite _ _ Hnz) in H. injection H as <-.
  assert (H0 : (0 <= inject_Z n)%Q) by (rewrite Zle_Qle in Hn; exact Hn).
  assert (Hr : (0 <= inject_Z n / t /\ inject_Z n / t <= 1)%Q).
  { split.
    - apply Qle_shift_div_l; [exact Ht | lra].
    - apply Qle_shift_div_r; [exact Ht | lra]. }
  unfold in_percent_range, fle, float_of_int. rewrite !Qred_correct.
  change (inject_Z 0) with 0%Q. change (inject_Z 100) with 100%Q.
  destruct Hr. split; nra.
Qed.

Lemma exact_download_percent_range (total r : Z) :
  0 < total -> 0 <= r <= total ->
  (0 <= exact_download_percent total r <= 100)%Q.
Proof.
  intros Ht [Hr0 Hr1]. unfold exact_download_percent.
  assert (Ht' : (0 < inject_Z total)%Q) by (rewrite Zlt_Qlt in Ht; exact Ht).
  assert (Ha : (0 <= inject_Z (total - r))%Q).
  { assert (0 <= total - r) as H by lia. rewrite Zle_Qle in H. exact H. }
  assert (Hb : (inject_Z (total - r) <= inject_Z total)%Q).
  { assert (total - r <= total) as H by lia. rewrite Zle_Qle in H. exact H. }
  assert (Hq : (0 <= inject_Z (total - r) / inject_Z total
                /\ inject_Z (total - r) / inject_Z total <= 1)%Q).
  { split.
    - apply Qle_shift_div_l; [exact Ht' | lra].
    - apply Qle_shift_div_r; [exact Ht' | lra]. }
  destruct Hq. split; nra.
Qed.

Lemma exact_download_percent_mono (total r1 r2 : Z) :
  0 < total -> r2 <= r1 ->
  (exact_download_percent total r1 <= exact_download_percent total r2)%Q.
Proof.
  intros Ht Hr. unfold exact_download_percent.
  assert (Ht' : (0 < inject_Z total)%Q) by (rewrite Zlt_Qlt in Ht; exact Ht).
  apply Qmult_le_compat_r; [| discriminate].
  apply Qmult_le_compat_r.
  - assert (total - r1 <= total - r2) as H by lia. rewrite Zle_Qle in H. exact H.
  - apply Qlt_le_weak, Qinv_lt_0_compat, Ht'.
Qed.

(** The value [on_download_progress] computes, as a rational. *)
Lemma download_percent_value (total r : Z) :
  total <> 0 ->
  exists q : Q,
    res_bind (int_truediv (total - r) total)
             (fun ratio => Ok (py_round (float_mul_int ratio 100) 2)) = Ok (Fin q)
    /\ (q == inject_Z (Qround_half_even (exact_download_percent total r * 100)) / 100)%Q.
Proof.
  intros Ht. unfold int_truediv.
  destruct (Z.eqb_spec total 0) as [E | _]; [contradiction |].
  eexists. split; [reflexivity |].
  rewrite Qred_correct.
  change (inject_Z (10 ^ 2)) with 100%Q.
  assert (E : Qround_half_even
                (Qred (Qred (inject_Z (total - r) / inject_Z total) * inject_Z 100) * 100)
              = Qround_half_even (exact_download_percent total r * 100)).
  { apply Qround_half_even_proper. unfold exact_download_percent.
    rewrite !Qred_correct. reflexivity. }
  rewrite E. reflexivity.
Qed.

Lemma on_download_progress_run (s : stream) (r : Z) (st : state) :
  filesize s <> 0 ->
  exists q : Q,
    on_download_progress s r st =
      (Ok (Fin q),
       {| win := set_pct_completed (Fin q) (win st);
          fs := fs st;
          trace := trace st ++ [SetValue (Fin q);
                                SetFormat "Downloading ... %0.2f %%" (Fin q)] |})
    /\ (q == inject_Z (Qround_half_even
                         (exact_download_percent (filesize s) r * 100)) / 100)%Q.
Proof.
  intros Ht. destruct (download_percent_value (filesize s) r Ht) as (q & Hq & Hv).
  exists q. split; [| exact Hv].
  unfold on_download_progress, bind, lift, set_self, self, emit, ret.
  unfold res_bind in Hq.
  destruct (int_truediv (filesize s - r) (filesize s)) as [ratio | e];
    [| discriminate].
  injection Hq as Hq. simpl. rewrite Hq.
  rewrite <- app_assoc. reflexivity.
Qed.


(* ===================================================================== *)
(** * The download callback *)
(* ===================================================================== *)



(* ===================================================================== *)
(** * The worker wrapper *)
(* ===================================================================== *)

(** C10.  Every execution of [Worker.run] emits [finished] exactly once, as
    its last effect, whatever the wrapped function did.  If the function
    raised, [error] is emitted once, with the exception type, the exception
    and the traceback text, and [result] is not emitted; if it returned,
    [result] is emitted once with the returned value and [error] is not
    emitted. *)
Theorem Worker_run_signals {R : Type} (format_exc : exn -> string) (call : res R) :
  let effects := Worker_run format_exc call in
  count_effects is_finished effects = 1%nat
  /\ List.last effects (Emit finished) = Emit finished
  /\ match call with
     | Raise e =>
         In (Emit (error e e (format_exc e))) effects
         /\ count_effects is_error effects = 1%nat
         /\ count_effects is_result effects = 0%nat
     | Ok r =>
         In (Emit (result r)) effects
         /\ count_effects is_result effects = 1%nat
         /\ count_effects is_error effects = 0%nat
     end.
Proof.
  destruct call as [r | e]; cbn.
  - repeat split; auto.
  - repeat split; auto.
Qed.

(* ===================================================================== *)
(** * Reported percentages *)
(* ===================================================================== *)

Lemma bind_Ok {A B} (c : M A) (k : A -> M B) (st st1 : state) (a : A) :
  c st = (Ok a, st1) -> bind c k st = k a st1.
Proof. intros H. unfold bind. rewrite H. reflexivity. Qed.

Lemma bind_Raise {A B} (c : M A) (k : A -> M B) (st st1 : state) (e : exn) :
  c st = (Raise e, st1) -> bind c k st = (Raise e, st1).
Proof. intros H. unfold bind. rewrite H. reflexivity. Qed.

Lemma reported_app (l1 l2 : list event) :
  reported (l1 ++ l2) = (reported l1 ++ reported l2)%list.
Proof.
  induction l1 as [| ev l1 IH]; [reflexivity |].
  destruct ev; simpl; rewrite ?IH; reflexivity.
Qed.

Lemma set_values_app (l1 l2 : list event) :
  set_values (l1 ++ l2) = (set_values l1 ++ set_values l2)%list.
Proof.
  induction l1 as [| ev l1 IH]; [reflexivity |].
  destruct ev; simpl; rewrite ?IH; reflexivity.
Qed.

Lemma fle_trans (x y z : pyfloat) : fle x y -> fle y z -> fle x z.
Proof.
  destruct x as [a | [] |], y as [b | [] |], z as [c | [] |]; simpl;
    try tauto. intros; lra.
Qed.

(** The image of a chain under a map that respects the order is
    non-decreasing. *)
Lemma nondecreasing_Forall2 {A} (R : A -> pyfloat -> Prop) (ord : A -> A -> Prop)
    (l : list A) (ps : list pyfloat) :
  (forall a b p q, ord a b -> R a p -> R b q -> fle p q) ->
  Forall2 R l ps -> chain ord l -> nondecreasing ps.
Proof.
  intros mono HF. induction HF as [| a p l ps Hap HF IH]; [exact (fun _ => I) |].
  destruct HF as [| b q l ps Hbq HF]; [exact (fun _ => I) |].
  intros [Hab Hrest]. split.
  - exact (mono a b p q Hab Hap Hbq).
  - apply IH. exact Hrest.
Qed.

(** ** Stepping through a computation *)

Lemma bind_ret {A B} (a : A) (k : A -> M B) (st : state) :
  bind (ret a) k st = k a st.
Proof. reflexivity. Qed.

Lemma bind_raise {A B} (e : exn) (k : A -> M B) (st : state) :
  bind (raise e) k st = (Raise e, st).
Proof. reflexivity. Qed.

Lemma bind_lift_Ok {A B} (a : A) (k : A -> M B) (st : state) :
  bind (lift (Ok a)) k st = k a st.
Proof. reflexivity. Qed.

Lemma bind_lift_Raise {A B} (e : exn) (k : A -> M B) (st : state) :
  bind (lift (Raise e)) k st = (Raise e, st).
Proof. reflexivity. Qed.

Lemma bind_self {B} (k : window -> M B) (st : state) :
  bind self k st = k (win st) st.
Proof. reflexivity. Qed.

Lemma bind_set_self {B} (f : window -> window) (k : unit -> M B) (st : state) :
  bind (set_self f) k st
  = k tt {| win := f (win st); fs := fs st; trace := trace st |}.
Proof. reflexivity. Qed.

Lemma bind_emit {B} (ev : event) (k : unit -> M B) (st : state) :
  bind (emit ev) k st
  = k tt {| win := win st; fs := fs st; trace := trace st ++ [ev] |}.
Proof. reflexivity. Qed.

Lemma bind_write_file {B} (path : string) (k : unit -> M B) (st : state) :
  bind (write_file path) k st
  = k tt {| win := win st;
            fs := {| dirs := dirs (fs st); files := {[ path ]} ∪ files (fs st) |};
            trace := trace st |}.
Proof. reflexivity. Qed.

Lemma bind_assoc {A B C} (c : M A) (k : A -> M B) (h : B -> M C) (st : state) :
  bind (bind c k) h st = bind c (fun a => bind (k a) h) st.
Proof.
  unfold bind. destruct (c st) as [[a | e] st1]; reflexivity.
Qed.

Ltac mstep :=
  repeat (rewrite ?bind_ret, ?bind_raise, ?bind_lift_Ok, ?bind_lift_Raise,
            ?bind_self, ?bind_set_self, ?bind_emit, ?bind_write_file;
          cbn [win fs trace dirs files]).


Lemma reports_download_range (total r : Z) (p : pyfloat) :
  0 < total -> 0 <= r <= total ->
  reports_download total r p -> in_percent_range p.
Proof.
  intros Ht Hr (q & -> & Hq).
  destruct (exact_download_percent_range total r Ht Hr) as [Hlo Hhi].
  set (x := exact_download_percent total r) in *.
  assert (H0 : 0 <= Qround_half_even (x * 100)).
  { rewrite <- (Qround_half_even_inject 0).
    apply Qround_half_even_mono. change (inject_Z 0) with 0%Q. lra. }
  assert (H1 : Qround_half_even (x * 100) <= 10000).
  { rewrite <- (Qround_half_even_inject 10000).
    apply Qround_half_even_mono. change (inject_Z 10000) with 10000%Q. lra. }
  rewrite Zle_Qle in H0, H1.
  change (inject_Z 0) with 0%Q in H0. change (inject_Z 10000) with 10000%Q in H1.
  unfold in_percent_range, fle, float_of_int.
  change (inject_Z 0) with 0%Q. change (inject_Z 100) with 100%Q.
  rewrite Hq. unfold Qdiv. change (/ 100)%Q with (1 # 100)%Q.
  split; lra.
Qed.

Lemma reports_download_mono (total r1 r2 : Z) (p1 p2 : pyfloat) :
  0 < total -> r1 >= r2 ->
  reports_download total r1 p1 -> reports_download total r2 p2 -> fle p1 p2.
Proof.
  intros Ht Hr (q1 & -> & Hq1) (q2 & -> & Hq2). simpl.
  assert (Hx : (exact_download_percent total r1 <= exact_download_percent total r2)%Q)
    by (apply exact_download_percent_mono; lia).
  assert (Hm : Qround_half_even (exact_download_percent total r1 * 100)
               <= Qround_half_even (exact_download_percent total r2 * 100))
    by (apply Qround_half_even_mono; lra).
  rewrite Zle_Qle in Hm. rewrite Hq1, Hq2.
  unfold Qdiv. change (/ 100)%Q with (1 # 100)%Q. lra.
Qed.

(** The callbacks of one download: they all return, they touch only
    [pct_completed] and the trace, and they report one value each. *)
Lemma run_callbacks_run (s : stream) (feed : list Z) :
  filesize s <> 0 ->
  forall st,
  exists evs,
    fst (run_callbacks s feed st) = Ok tt
    /\ trace (snd (run_callbacks s feed st)) = (trace st ++ evs)%list
    /\ Forall2 (reports_download (filesize s)) feed (reported evs).
Proof.
  intros Ht. induction feed as [| r feed IH]; intros st.
  - exists []. simpl. rewrite app_nil_r. auto.
  - destruct (on_download_progress_run s r st Ht) as (q & Hrun & Hq).
    simpl. rewrite (bind_Ok _ _ _ _ _ Hrun).
    match goal with |- context [run_callbacks s feed ?st1] =>
      destruct (IH st1) as (evs & Hok & Htr & Hrep) end.
    exists ([SetValue (Fin q); SetFormat "Downloading ... %0.2f %%" (Fin q)] ++ evs)%list.
    split; [exact Hok |]. split.
    + rewrite Htr. simpl. rewrite <- app_assoc. reflexivity.
    + simpl. constructor; [| exact Hrep]. exists q. auto.
Qed.

Lemma Stream_download_reports (s : stream) (dir name : string) (st : state) :
  filesize s <> 0 ->
  exists evs,
    trace (snd (Stream_download s dir name st)) = (trace st ++ evs)%list
    /\ Forall2 (reports_download (filesize s)) (progress_feed s) (reported evs).
Proof.
  intros Ht. unfold Stream_download.
  set (path := os_path_join dir name).
  unfold bind at 1 2 3.
  cbn [emit write_file fst snd].
  match goal with |- context [run_callbacks s (progress_feed s) ?st1] =>
    destruct (run_callbacks_run s (progress_feed s) Ht st1) as (evs & Hok & Htr & Hrep);
    destruct (run_callbacks s (progress_feed s) st1) as [r st2] end.
  cbn [fst snd trace] in Hok, Htr. subst r.
  destruct (download_fault s) as [e |].
  - exists (DownloadCalled path :: evs). cbn [raise snd]. rewrite Htr. split.
    + rewrite <- app_assoc. reflexivity.
    + exact Hrep.
  - exists (DownloadCalled path :: evs ++ [DownloadReturned path])%list.
    unfold bind, emit, ret. cbn [fst snd trace]. rewrite Htr. split.
    + rewrite <- !app_assoc. reflexivity.
    + simpl. rewrite reported_app. simpl. rewrite app_nil_r. exact Hrep.
Qed.

(** The polling loop on a positive finite total: it returns, and it reports
    one value for each sample. *)
Lemma poll_loop_run (t : Q) (q : list Z) (code : Z) :
  ~ (t == 0)%Q ->
  forall st,
  exists evs,
    fst (poll_loop (Fin t) q code st) = Ok tt
    /\ trace (snd (poll_loop (Fin t) q code st)) = (trace st ++ evs)%list
    /\ Forall2 (fun n p => merge_percent n (Fin t) = Ok p) q (reported evs).
Proof.
  intros Ht. induction q as [| n q IH]; intros st.
  - exists [Polled (Some code)]. simpl. auto.
  - cbn [poll_loop]. rewrite (merge_percent_finite n t Ht). mstep.
    match goal with |- context [poll_loop (Fin t) q code ?st1] =>
      destruct (IH st1) as (evs & Hok & Htr & Hrep) end.
    eexists (Polled None :: Slept :: SetValue _ :: SetFormat _ _ :: evs).
    split; [exact Hok |]. split.
    + rewrite Htr. cbn [trace]. rewrite <- !app_assoc. reflexivity.
    + simpl. constructor; [| exact Hrep].
      apply merge_percent_finite, Ht.
Qed.

Lemma Forall2_Forall_r {A B} (R : A -> B -> Prop) (P : A -> Prop) (Q : B -> Prop)
    (l : list A) (l' : list B) :
  (forall a b, P a -> R a b -> Q b) ->
  Forall2 R l l' -> Forall P l -> Forall Q l'.
Proof.
  intros H HF. induction HF as [| a b l l' Hab HF IH]; intros HP.
  - constructor.
  - inversion HP; subst. constructor; eauto.
Qed.

(** C1, as the code has it.  The code hands the computed percentage to the
    progress bar as it is; nothing clamps it.  During the download of one
    stream of positive size whose callbacks report a [bytes_remaining] that
    stays within [0, total_size] and does not grow, and during the polling
    loop on a positive total whose samples stay within [0, total] and do
    not shrink, every reported percentage lies in [0, 100] and the reported
    sequence is non-decreasing; the polling loop reports exactly
    [n_frame / tot_n_frames * 100] for each sample. *)
Theorem reported_percent_bounded_and_monotone_within_phase
    (s : stream) (dir name : string) (st : state)
    (t : Q) (q : list Z) (code : Z) (st2 : state) :
  0 < filesize s ->
  Forall (fun r => 0 <= r <= filesize s) (progress_feed s) ->
  descending (progress_feed s) ->
  (0 < t)%Q ->
  Forall (fun n => 0 <= n /\ (inject_Z n <= t)%Q) q ->
  ascending q ->
  (exists evs,
      appends st (snd (Stream_download s dir name st)) evs
      /\ Forall in_percent_range (reported evs)
      /\ nondecreasing (reported evs))
  /\ (exists evs,
         appends st2 (snd (poll_loop (Fin t) q code st2)) evs
         /\ Forall2 (fun n p => merge_percent n (Fin t) = Ok p) q (reported evs)
         /\ Forall in_percent_range (reported evs)
         /\ nondecreasing (reported evs)).
Proof.
  intros Hsize Hfeed Hdesc Ht Hq Hasc. split.
  - assert (Hnz : filesize s <> 0) by lia.
    destruct (Stream_download_reports s dir name st Hnz) as (evs & Htr & Hrep).
    exists evs. split; [exact Htr |]. split.
    + apply (Forall2_Forall_r _ _ _ _ _
               (fun r p Hr => reports_download_range (filesize s) r p Hsize Hr)
               Hrep Hfeed).
    + apply (nondecreasing_Forall2 (reports_download (filesize s)) Z.ge
               (progress_feed s) (reported evs)); [| exact Hrep | exact Hdesc].
      intros a b p p' Hab. apply reports_download_mono; assumption.
  - assert (Hnz : ~ (t == 0)%Q) by lra.
    destruct (poll_loop_run t q code Hnz st2) as (evs & _ & Htr & Hrep).
    exists evs. split; [exact Htr |]. split; [exact Hrep |]. split.
    + apply (Forall2_Forall_r _ _ _ _ _
               (fun n p (Hn : 0 <= n /\ (inject_Z n <= t)%Q) =>
                  merge_percent_range n t p Ht (proj1 Hn) (proj2 Hn))
               Hrep Hq).
    + apply (nondecreasing_Forall2 (fun n p => merge_percent n (Fin t) = Ok p) Z.le
               q (reported evs)); [| exact Hrep | exact Hasc].
      intros a b p p' Hab. apply merge_percent_mono; assumption.
Qed.

Lemma reported_percent_bounded_and_monotone_within_phase_witness :
  0 < filesize example_video
  /\ Forall (fun r => 0 <= r <= filesize example_video) (progress_feed example_video)
  /\ descending (progress_feed example_video)
  /\ (0 < 1000)%Q
  /\ Forall (fun n => 0 <= n /\ (inject_Z n <= 1000)%Q) [0; 100; 500; 1000]
  /\ ascending [0; 100; 500; 1000]
  /\ (exists evs,
         appends example_state
           (snd (Stream_download example_video "/tmp/tmpx" "video.mp4" example_state))
           evs
         /\ Forall in_percent_range (reported evs)
         /\ nondecreasing (reported evs))
  /\ (exists evs,
         appends example_state
           (snd (poll_loop (Fin 1000) [0; 100; 500; 1000] 0 example_state)) evs
         /\ Forall2 (fun n p => merge_percent n (Fin 1000) = Ok p)
              [0; 100; 500; 1000] (reported evs)
         /\ Forall in_percent_range (reported evs)
         /\ nondecreasing (reported evs)).
Proof.
  assert (H1 : 0 < filesize example_video) by (simpl; lia).
  assert (H2 : Forall (fun r => 0 <= r <= filesize example_video)
                 (progress_feed example_video))
    by (simpl; repeat constructor; lia).
  assert (H3 : descending (progress_feed example_video))
    by (simpl; repeat split; lia).
  assert (H4 : (0 < 1000)%Q) by reflexivity.
  assert (H5 : Forall (fun n => 0 <= n /\ (inject_Z n <= 1000)%Q) [0; 100; 500; 1000])
    by (repeat constructor; try lia; unfold Qle; simpl; lia).
  assert (H6 : ascending [0; 100; 500; 1000]) by (simpl; repeat split; lia).
  repeat (split; [assumption |]).
  exact (reported_percent_bounded_and_monotone_within_phase
           example_video "/tmp/tmpx" "video.mp4" example_state
           1000 [0; 100; 500; 1000] 0 example_state H1 H2 H3 H4 H5 H6).
Defined.

(** C1 fails as stated.  With a total of 1000 packets and a frame sample of
    1500 the code hands 150 to the progress bar, and in the download phase
    the audio download reports 66.67 after the video download has reported
    100. *)
Lemma reported_percent_counterexample :
  let st' := snd (download_video (example_env "1000" [500; 1500] 0) example_state) in
  let dl := snd (download_streams (snd (select_streams example_state))) in
  In (SetValue (Fin 150)) (trace st')
  /\ ~ in_percent_range (Fin 150)
  /\ reported (trace dl) = [Fin 40; Fin 80; Fin 100; Fin (6667 # 100); Fin 100]
  /\ ~ nondecreasing (reported (trace dl)).
Proof.
  assert (Hdl : reported (trace (snd (download_streams (snd (select_streams example_state)))))
                = [Fin 40; Fin 80; Fin 100; Fin (6667 # 100); Fin 100])
    by (vm_compute; reflexivity).
  cbv zeta. rewrite Hdl. split; [| split; [| split]].
  - vm_compute. tauto.
  - intros [_ H]. vm_compute in H. apply H. reflexivity.
  - reflexivity.
  - intros (_ & _ & H & _). vm_compute in H. apply H. reflexivity.
Qed.

(* ===================================================================== *)
(** * The order of events in a run *)
(* ===================================================================== *)

Lemma run_stages_app (s : stage) (l1 l2 : list event) :
  run_stages s (l1 ++ l2) =
  match run_stages s l1 with
  | Some s' => run_stages s' l2
  | None => None
  end.
Proof.
  revert s. induction l1 as [| ev l1 IH]; intros s; [reflexivity |].
  simpl. destruct (next_stage s ev); [apply IH | reflexivity].
Qed.

Lemma at_stage_start (st : state) : at_stage (trace st) Idle st.
Proof. exists []. rewrite app_nil_r. auto. Qed.

Lemma at_stage_emit (t0 : list event) (p q : stage) (ev : event) (st : state) :
  next_stage p ev = Some q ->
  at_stage t0 p st ->
  at_stage t0 q {| win := win st; fs := fs st; trace := trace st ++ [ev] |}.
Proof.
  intros Hn (evs & Htr & Hrun). exists (evs ++ [ev])%list. cbn [trace]. split.
  - rewrite Htr, app_assoc. reflexivity.
  - rewrite run_stages_app, Hrun. simpl. rewrite Hn. reflexivity.
Qed.

Lemma at_stage_same_trace (t0 : list event) (p : stage) (st st' : state) :
  trace st' = trace st -> at_stage t0 p st -> at_stage t0 p st'.
Proof. intros E (evs & Htr & Hrun). exists evs. rewrite E. auto. Qed.

Section Moves.
Variable t0 : list event.
Variable E : stage -> Prop.

Lemma moves_ret {A} (p : stage) (a : A) : moves t0 p (ret a) p E.
Proof. intros st H. exact H. Qed.

Lemma moves_raise {A} (p q : stage) (e : exn) :
  E p -> moves t0 p (@raise A e) q E.
Proof. intros HE st H. exists p. auto. Qed.

Lemma moves_lift {A} (p : stage) (r : res A) :
  E p -> moves t0 p (lift r) p E.
Proof. intros HE st H. destruct r; simpl; [exact H | exists p; auto]. Qed.

Lemma moves_self (p : stage) : moves t0 p self p E.
Proof. intros st H. exact H. Qed.

Lemma moves_set_self (p : stage) (f : window -> window) :
  moves t0 p (set_self f) p E.
Proof. intros st H. exact (at_stage_same_trace _ _ _ _ eq_refl H). Qed.

Lemma moves_write_file (p : stage) (path : string) :
  moves t0 p (write_file path) p E.
Proof. intros st H. exact (at_stage_same_trace _ _ _ _ eq_refl H). Qed.

Lemma moves_emit (p q : stage) (ev : event) :
  next_stage p ev = Some q -> moves t0 p (emit ev) q E.
Proof. intros Hn st H. exact (at_stage_emit _ _ _ _ _ Hn H). Qed.

Lemma moves_bind {A B} (p q r : stage) (c : M A) (k : A -> M B) :
  moves t0 p c q E -> (forall a, moves t0 q (k a) r E) ->
  moves t0 p (bind c k) r E.
Proof.
  intros Hc Hk st H. specialize (Hc st H). unfold bind.
  destruct (c st) as [[a | e] st1]; simpl in *.
  - apply Hk, Hc.
  - exact Hc.
Qed.

Lemma moves_local {A} (p : stage) (v : option A) :
  E p -> moves t0 p (local v) p E.
Proof.
  intros HE. destruct v; [apply moves_ret | apply moves_raise, HE].
Qed.

Lemma moves_attr_of {A} (p : stage) (v : option A) :
  E p -> moves t0 p (attr_of v) p E.
Proof.
  intros HE. destruct v; [apply moves_ret | apply moves_raise, HE].
Qed.

Lemma moves_try_assign_itag (expr : res Z) :
  E Idle -> moves t0 Idle (try_assign_itag expr) Idle E.
Proof.
  intros HE. destruct expr as [z | []]; simpl;
    try (apply moves_raise, HE); try apply moves_ret.
  eapply moves_bind; [apply moves_emit; reflexivity | intros; apply moves_ret].
Qed.

Lemma moves_select_streams :
  E Idle -> moves t0 Idle select_streams Idle E.
Proof.
  intros HE. unfold select_streams.
  eapply moves_bind; [apply moves_self | intros w].
  eapply moves_bind; [apply moves_try_assign_itag, HE | intros audio_itag].
  eapply moves_bind; [apply moves_try_assign_itag, HE | intros video_itag].
  eapply moves_bind; [apply moves_attr_of, HE | intros query].
  eapply moves_bind; [apply moves_local, HE | intros i].
  eapply moves_bind; [apply moves_set_self | intros _].
  eapply moves_bind; [apply moves_attr_of, HE | intros query'].
  eapply moves_bind; [apply moves_local, HE | intros i'].
  apply moves_set_self.
Qed.

Lemma moves_on_download_progress (path : string) (s : stream) (r : Z) :
  E (Downloading path) ->
  moves t0 (Downloading path) (on_download_progress s r) (Downloading path) E.
Proof.
  intros HE. unfold on_download_progress.
  eapply moves_bind; [apply moves_lift, HE | intros ratio].
  eapply moves_bind; [apply moves_set_self | intros _].
  eapply moves_bind; [apply moves_self | intros w].
  eapply moves_bind; [apply moves_set_self | intros _].
  eapply moves_bind; [apply moves_self | intros w'].
  eapply moves_bind; [apply moves_emit; reflexivity | intros _].
  eapply moves_bind; [apply moves_emit; reflexivity | intros _].
  apply moves_ret.
Qed.

Lemma moves_run_callbacks (path : string) (s : stream) (feed : list Z) :
  E (Downloading path) ->
  moves t0 (Downloading path) (run_callbacks s feed) (Downloading path) E.
Proof.
  intros HE. induction feed as [| r feed IH]; simpl.
  - apply moves_ret.
  - eapply moves_bind; [apply moves_on_download_progress, HE | intros _; exact IH].
Qed.

Lemma moves_Stream_download (s : stream) (dir name : string) :
  E (Downloading (os_path_join dir name)) ->
  moves t0 Idle (Stream_download s dir name) Idle E.
Proof.
  intros HE. unfold Stream_download.
  eapply moves_bind; [apply moves_emit; reflexivity | intros _].
  eapply moves_bind; [apply moves_write_file | intros _].
  eapply moves_bind; [apply moves_run_callbacks, HE | intros _].
  destruct (download_fault s).
  - apply moves_raise, HE.
  - eapply moves_bind; [| intros _; apply moves_ret].
    apply moves_emit. simpl. rewrite String.eqb_refl. reflexivity.
Qed.

Lemma moves_download_streams :
  (forall path, E (Downloading path)) ->
  moves t0 Idle download_streams Idle E.
Proof.
  intros HE. unfold download_streams.
  eapply moves_bind; [apply moves_self | intros w].
  eapply moves_bind.
  - destruct (video_stream w); [| apply moves_ret].
    eapply moves_bind; [apply moves_Stream_download, HE | intros _; apply moves_ret].
  - intros _. eapply moves_bind; [apply moves_self | intros w'].
    destruct (audio_stream w'); [| apply moves_ret].
    eapply moves_bind; [apply moves_Stream_download, HE | intros _; apply moves_ret].
Qed.

Lemma moves_ffprobe_total_frames (video_filename : string) (p : probe_run) :
  E Probing -> E Probed ->
  moves t0 Downloaded (ffprobe_total_frames video_filename p) Probed E.
Proof.
  intros HE1 HE2. unfold ffprobe_total_frames.
  eapply moves_bind; [apply moves_emit; reflexivity | intros _].
  destruct (probe_fault p); [apply moves_raise, HE1 |].
  eapply moves_bind; [apply moves_emit; reflexivity | intros _].
  eapply moves_bind; [apply moves_lift, HE2 | intros dict].
  eapply moves_bind; [apply moves_lift, HE2 | intros l].
  eapply moves_bind; [apply moves_lift, HE2 | intros s0].
  eapply moves_bind; [apply moves_lift, HE2 | intros v].
  apply moves_lift, HE2.
Qed.

Lemma moves_poll_loop (tot : pyfloat) (q : list Z) (code : Z) :
  E Merging -> moves t0 Merging (poll_loop tot q code) (Exited code) E.
Proof.
  intros HE. induction q as [| n q IH]; simpl.
  - apply moves_emit. reflexivity.
  - eapply moves_bind; [apply moves_emit; reflexivity | intros _].
    eapply moves_bind; [apply moves_emit; reflexivity | intros _].
    eapply moves_bind; [apply moves_lift, HE | intros p].
    eapply moves_bind; [apply moves_emit; reflexivity | intros _].
    eapply moves_bind; [apply moves_emit; reflexivity | intros _].
    exact IH.
Qed.

Lemma moves_merge_files (m : merge_run) (v a : string) (tot : pyfloat) :
  E Probed -> E Merging ->
  moves t0 Probed (merge_files m v a tot) Complete E.
Proof.
  intros HE1 HE2. unfold merge_files.
  eapply moves_bind; [apply moves_set_self | intros _].
  eapply moves_bind; [apply moves_self | intros w].
  destruct (popen_fault m); [apply moves_raise, HE1 |].
  eapply moves_bind; [apply moves_emit; reflexivity | intros _].
  eapply moves_bind; [apply moves_emit; reflexivity | intros _].
  eapply moves_bind; [apply moves_poll_loop, HE2 | intros _].
  eapply moves_bind; [apply moves_emit; reflexivity | intros _].
  eapply moves_bind; [apply moves_emit; reflexivity | intros _].
  eapply moves_bind; [apply moves_emit; simpl; rewrite Z.eqb_refl; reflexivity
                     | intros _].
  eapply moves_bind; [apply moves_emit; reflexivity | intros _].
  eapply moves_bind; [apply moves_set_self | intros _].
  apply moves_ret.
Qed.
End Moves.

(** Every run of [download_video] goes through the stages in order: it
    ends in [Complete] when it returns, and in a stage before the exit of
    ffmpeg has been seen when it raises. *)
Lemma moves_download_video (t0 : list event) (e : env) :
  moves t0 Idle (download_video e) Complete before_exit.
Proof.
  unfold download_video.
  eapply moves_bind; [apply moves_select_streams; exact I | intros _].
  eapply moves_bind; [apply moves_download_streams; intros; exact I | intros _].
  eapply moves_bind; [apply moves_self | intros w].
  eapply moves_bind; [apply moves_emit; reflexivity | intros _].
  eapply moves_bind; [apply moves_emit; reflexivity | intros _].
  eapply moves_bind; [apply moves_emit; reflexivity | intros _].
  eapply moves_bind; [apply moves_ffprobe_total_frames; exact I | intros tot].
  apply moves_merge_files; exact I.
Qed.

(** ** What the order of stages says about the trace *)

Lemma next_stage_rank (p q : stage) (ev : event) :
  next_stage p ev = Some q -> (stage_rank p <= stage_rank q)%nat.
Proof.
  destruct p, ev; simpl; try discriminate;
    try (intros H; injection H as <-; simpl; lia).
  - destruct (String.eqb path path0); [| discriminate].
    intros H; injection H as <-; simpl; lia.
  - destruct status; intros H; injection H as <-; simpl; lia.
  - destruct (returncode =? returncode0); [| discriminate].
    intros H; injection H as <-; simpl; lia.
Qed.

Lemma run_stages_rank (evs : list event) :
  forall p q, run_stages p evs = Some q -> (stage_rank p <= stage_rank q)%nat.
Proof.
  induction evs as [| ev evs IH]; intros p q; simpl.
  - intros H; injection H as <-; lia.
  - destruct (next_stage p ev) as [p1 |] eqn:Hn; [| discriminate].
    intros H. apply IH in H. apply next_stage_rank in Hn. lia.
Qed.

(** An event of the trace was accepted at some stage of the run. *)
Lemma run_stages_In (evs : list event) (ev : event) :
  forall p q, run_stages p evs = Some q -> In ev evs ->
  exists p1 q1, next_stage p1 ev = Some q1
                /\ (stage_rank p <= stage_rank p1)%nat
                /\ (stage_rank q1 <= stage_rank q)%nat.
Proof.
  induction evs as [| ev0 evs IH]; intros p q Hrun Hin; [contradiction |].
  simpl in Hrun.
  destruct (next_stage p ev0) as [p1 |] eqn:Hn; [| discriminate].
  destruct Hin as [-> | Hin].
  - exists p, p1. split; [exact Hn |]. split; [lia |].
    apply run_stages_rank in Hrun. exact Hrun.
  - destruct (IH p1 q Hrun Hin) as (p2 & q2 & H2 & Hlo & Hhi).
    exists p2, q2. split; [exact H2 |]. split; [| exact Hhi].
    apply next_stage_rank in Hn. lia.
Qed.

Lemma run_stages_split (pre post : list event) (ev : event) (p q : stage) :
  run_stages p (pre ++ ev :: post) = Some q ->
  exists p1 q1, run_stages p pre = Some p1 /\ next_stage p1 ev = Some q1
                /\ run_stages q1 post = Some q.
Proof.
  rewrite run_stages_app.
  destruct (run_stages p pre) as [p1 |]; [| discriminate]. simpl.
  destruct (next_stage p1 ev) as [q1 |] eqn:Hn; [| discriminate].
  intros H. exists p1, q1. auto.
Qed.

(** The only way past [Probing] is the exit of the probe. *)
Lemma next_stage_into_Probed (p q : stage) (ev : event) :
  next_stage p ev = Some q ->
  (stage_rank p < 3)%nat -> (3 <= stage_rank q)%nat ->
  exists rc, ev = ProbeExited rc.
Proof.
  destruct p, ev; simpl; try discriminate;
    try (intros _ Hp; lia);
    try (intros H; injection H as <-; simpl; lia);
    try (intros _ _ _; eexists; reflexivity).
  destruct (String.eqb path path0); [| discriminate].
  intros H; injection H as <-; simpl; lia.
Qed.

Lemma run_stages_ProbeExited (evs : list event) :
  forall p q, run_stages p evs = Some q ->
  (stage_rank p < 3)%nat -> (3 <= stage_rank q)%nat ->
  exists rc, In (ProbeExited rc) evs.
Proof.
  induction evs as [| ev evs IH]; intros p q; simpl.
  - intros H; injection H as <-; lia.
  - destruct (next_stage p ev) as [p1 |] eqn:Hn; [| discriminate].
    intros Hrun Hp Hq.
    destruct (Nat.lt_ge_cases (stage_rank p1) 3) as [Hlt | Hge].
    + destruct (IH p1 q Hrun Hlt Hq) as (rc & Hin). exists rc. auto.
    + destruct (next_stage_into_Probed p p1 ev Hn Hp Hge) as (rc & ->).
      exists rc. auto.
Qed.

(** A download that has been called has returned, unless the run is still
    inside it. *)
Lemma run_stages_in_download (path : string) (evs : list event) :
  forall q, run_stages (Downloading path) evs = Some q ->
  q = Downloading path \/ In (DownloadReturned path) evs.
Proof.
  induction evs as [| ev evs IH]; intros q; simpl.
  - intros H; injection H as <-; auto.
  - destruct ev; try discriminate.
    + intros H. destruct (IH q H); auto.
    + intros H. destruct (IH q H); auto.
    + destruct (String.eqb_spec path path0) as [<- | _]; [| discriminate].
      intros _. auto.
Qed.

Lemma run_stages_downloads_return (evs : list event) :
  forall p q path, run_stages p evs = Some q ->
  In (DownloadCalled path) evs ->
  q = Downloading path \/ In (DownloadReturned path) evs.
Proof.
  induction evs as [| ev evs IH]; intros p q path Hrun Hin; [contradiction |].
  simpl in Hrun.
  destruct (next_stage p ev) as [p1 |] eqn:Hn; [| discriminate].
  destruct Hin as [-> | Hin].
  - destruct p; simpl in Hn; try discriminate. injection Hn as <-.
    destruct (run_stages_in_download path evs q Hrun); simpl; auto.
  - destruct (IH p1 q path Hrun Hin); simpl; auto.
Qed.

(** A run that reaches [Complete] ends with the shutdown sequence, and the
    events before it lead to [Merging]. *)
Lemma run_stages_shutdown (c : Z) (evs : list event) :
  run_stages (Exited c) evs = Some Complete ->
  exists msg, evs = [PipeClosed; ReaderJoined; Waited c; ShowMessage msg].
Proof.
  destruct evs as [| [] evs]; try discriminate. simpl.
  destruct evs as [| [] evs]; try discriminate. simpl.
  destruct evs as [| [] evs]; try discriminate. simpl.
  destruct (Z.eqb_spec c returncode) as [<- | _]; [| discriminate].
  destruct evs as [| [] evs]; try discriminate. simpl.
  destruct evs as [| ev evs]; [| discriminate].
  intros _. eexists. reflexivity.
Qed.

Lemma run_stages_Complete (evs : list event) :
  forall p, run_stages p evs = Some Complete -> (stage_rank p <= 4)%nat ->
  exists pre c msg,
    evs = (pre ++ [Polled (Some c); PipeClosed; ReaderJoined; Waited c;
                   ShowMessage msg])%list
    /\ run_stages p pre = Some Merging.
Proof.
  induction evs as [| ev evs IH]; intros p; simpl.
  - intros H; injection H as ->; simpl; lia.
  - destruct (next_stage p ev) as [p1 |] eqn:Hn; [| discriminate].
    intros Hrun Hp.
    destruct (Nat.le_gt_cases (stage_rank p1) 4) as [Hle | Hgt].
    + destruct (IH p1 Hrun Hle) as (pre & c & msg & -> & Hpre).
      exists (ev :: pre), c, msg. simpl. rewrite Hn. auto.
    + assert (Hpc : exists c, p = Merging /\ ev = Polled (Some c) /\ p1 = Exited c).
      { destruct p, ev; simpl in Hn, Hp; try discriminate; try lia;
          try (injection Hn as <-; simpl in Hgt; lia).
        - destruct (String.eqb path path0); [| discriminate].
          injection Hn as <-; simpl in Hgt; lia.
        - destruct status as [c |]; injection Hn as <-; simpl in Hgt; [| lia].
          exists c. auto. }
      destruct Hpc as (c & -> & -> & ->).
      destruct (run_stages_shutdown c evs Hrun) as (msg & ->).
      exists [], c, msg. auto.
Qed.

(* ===================================================================== *)
(** * Runs of [download_video] *)
(* ===================================================================== *)

Lemma new_events_appends (st st' : state) (evs : list event) :
  appends st st' evs -> new_events st st' = evs.
Proof.
  unfold appends, new_events. intros ->.
  rewrite skipn_app, skipn_all, Nat.sub_diag. reflexivity.
Qed.

(** The stages of a run, on the events the run adds. *)
Lemma download_video_stages (e : env) (st : state) :
  appends st (snd (download_video e st)) (events_of_run e st)
  /\ match fst (download_video e st) with
     | Ok _ => run_stages Idle (events_of_run e st) = Some Complete
     | Raise _ =>
         exists s, before_exit s /\ run_stages Idle (events_of_run e st) = Some s
     end.
Proof.
  pose proof (moves_download_video (trace st) e st (at_stage_start st)) as H.
  unfold events_of_run.
  destruct (fst (download_video e st)) as [v | x].
  - destruct H as (evs & Htr & Hrun).
    rewrite (new_events_appends _ _ _ Htr). auto.
  - destruct H as (s & Hs & evs & Htr & Hrun).
    rewrite (new_events_appends _ _ _ Htr). split; [exact Htr |].
    exists s. auto.
Qed.

Lemma bind_fst_Ok {A B} (c : M A) (k : A -> M B) (st : state) (b : B) :
  fst (bind c k st) = Ok b ->
  exists a, fst (c st) = Ok a /\ bind c k st = k a (snd (c st)).
Proof.
  unfold bind. destruct (c st) as [[a | x] st1]; simpl; [| discriminate].
  intros _. exists a. auto.
Qed.

(** What [merge_files] leaves behind when it returns. *)
Lemma merge_files_Ok (m : merge_run) (v a : string) (tot : pyfloat)
    (st : state) (s : string) :
  fst (merge_files m v a tot st) = Ok s ->
  s = "Download complete."
  /\ yt (win (snd (merge_files m v a tot st))) = None
  /\ exists pre,
       trace (snd (merge_files m v a tot st))
       = (pre ++ [PipeClosed; ReaderJoined; Waited (merge_returncode m);
                  ShowMessage "Finished download."])%list.
Proof.
  unfold merge_files. mstep.
  destruct (popen_fault m); [discriminate |]. mstep.
  match goal with |- context [bind (poll_loop ?t ?q ?c) ?k ?st1] =>
    destruct (poll_loop t q c st1) as [[[] | x] st2] eqn:Hp;
    [rewrite (bind_Ok _ k _ _ _ Hp) | rewrite (bind_Raise _ k _ _ _ Hp)] end;
    [| discriminate].
  mstep. simpl. intros H. injection H as <-.
  split; [reflexivity |]. split; [reflexivity |].
  exists (trace st2). rewrite <- !app_assoc. reflexivity.
Qed.

Lemma download_video_Ok (e : env) (st : state) (s : string) :
  fst (download_video e st) = Ok s ->
  s = "Download complete."
  /\ yt (win (snd (download_video e st))) = None
  /\ exists pre,
       trace (snd (download_video e st))
       = (pre ++ [PipeClosed; ReaderJoined; Waited (merge_returncode (merge e));
                  ShowMessage "Finished download."])%list.
Proof.
  unfold download_video. intros H.
  repeat
    (let a := fresh "a" in
     let Ha := fresh "Ha" in
     let Hb := fresh "Hb" in
     destruct (bind_fst_Ok _ _ _ _ H) as (a & Ha & Hb);
     rewrite Hb in H |- *; clear Hb Ha; cbv beta in H |- *).
  exact (merge_files_Ok _ _ _ _ _ _ H).
Qed.

Lemma In_shutdown_rank (evs : list event) (ev : event) (p q : stage) :
  run_stages p evs = Some q -> In ev evs -> is_shutdown_event ev ->
  (5 <= stage_rank q)%nat.
Proof.
  intros Hrun Hin Hev.
  destruct (run_stages_In evs ev p q Hrun Hin) as (p1 & q1 & Hn & _ & Hq).
  assert (5 <= stage_rank q1)%nat; [| lia].
  destruct ev; try contradiction; destruct p1; simpl in Hn; try discriminate.
  - destruct status; [| contradiction]. injection Hn as <-. simpl. lia.
  - injection Hn as <-. simpl. lia.
  - injection Hn as <-. simpl. lia.
  - destruct (returncode0 =? returncode); [| discriminate].
    injection Hn as <-. simpl. lia.
Qed.

(** Once the polling loop has seen the exit, the run goes to its end. *)
Lemma run_after_exit (e : env) (st : state) (c : Z) :
  In (Polled (Some c)) (events_of_run e st) ->
  fst (download_video e st) = Ok "Download complete."
  /\ exists pre,
       events_of_run e st
       = (pre ++ [Polled (Some c); PipeClosed; ReaderJoined; Waited c;
                  ShowMessage "Finished download."])%list
       /\ c = merge_returncode (merge e)
       /\ forall ev, In ev pre -> ~ is_shutdown_event ev.
Proof.
  intros Hin.
  destruct (download_video_stages e st) as [Htr Hst].
  destruct (fst (download_video e st)) as [s | x] eqn:Hres.
  - destruct (run_stages_Complete _ Idle Hst) as (pre & c' & msg & Hevs & Hpre);
      [simpl; lia |].
    assert (Hno : forall ev, In ev pre -> ~ is_shutdown_event ev).
    { intros ev Hev Hsh.
      pose proof (In_shutdown_rank pre ev Idle Merging Hpre Hev Hsh) as H.
      simpl in H. lia. }
    destruct (download_video_Ok e st s Hres) as (-> & _ & pre' & Hlast).
    split; [reflexivity |].
    unfold appends in Htr. rewrite Hevs in Htr. rewrite Htr in Hlast.
    change (pre ++ [Polled (Some c'); PipeClosed; ReaderJoined; Waited c';
                    ShowMessage msg])%list
      with (pre ++ [Polled (Some c')]
                ++ [PipeClosed; ReaderJoined; Waited c'; ShowMessage msg])%list
      in Hlast.
    rewrite !app_assoc in Hlast.
    apply app_inj_2 in Hlast as [_ Hlast]; [| reflexivity].
    injection Hlast as Hc Hmsg. subst msg.
    assert (c = c').
    { rewrite Hevs in Hin. apply in_app_or in Hin as [Hin | Hin].
      - exfalso. exact (Hno _ Hin I).
      - simpl in Hin.
        destruct Hin as [H | [H | [H | [H | [H | []]]]]]; try discriminate.
        injection H as ->. reflexivity. }
    exists pre. rewrite Hevs. subst c. auto.
  - destruct Hst as (s & Hs & Hrun). exfalso.
    pose proof (In_shutdown_rank _ _ _ _ Hrun Hin I) as H.
    destruct s; simpl in Hs, H; try contradiction; lia.
Qed.

(** C9.  In every run of [download_video] in which the polling loop sees
    that ffmpeg has exited with status [c], what follows is exactly: close
    the progress pipe, join the reader thread, wait for the process; then
    the final status message, and nothing more.  None of these steps
    happens before the exit has been seen. *)
Theorem shutdown_sequence_after_exit (e : env) (st : state) (c : Z) :
  In (Polled (Some c)) (events_of_run e st) ->
  exists pre,
    events_of_run e st
    = (pre ++ [Polled (Some c); PipeClosed; ReaderJoined; Waited c;
               ShowMessage "Finished download."])%list
    /\ forall ev, In ev pre -> ~ is_shutdown_event ev.
Proof.
  intros Hin. destruct (run_after_exit e st c Hin) as (_ & pre & Hevs & _ & Hno).
  exists pre. auto.
Qed.

Lemma example_run_sees_exit (c : Z) :
  In (Polled (Some c))
     (events_of_run (example_env "1000" [0; 100; 500; 1000] c) example_state).
Proof.
  assert (H : exists pre post,
             events_of_run (example_env "1000" [0; 100; 500; 1000] c) example_state
             = (pre ++ Polled (Some c) :: post)%list).
  { eexists (firstn 37 (events_of_run (example_env "1000" [0; 100; 500; 1000] 0)
                          example_state)), _.
    cbv. reflexivity. }
  destruct H as (pre & post & ->). apply in_elt.
Qed.

Lemma shutdown_sequence_after_exit_witness :
  In (Polled (Some 0))
     (events_of_run (example_env "1000" [0; 100; 500; 1000] 0) example_state)
  /\ exists pre,
       events_of_run (example_env "1000" [0; 100; 500; 1000] 0) example_state
       = (pre ++ [Polled (Some 0); PipeClosed; ReaderJoined; Waited 0;
                  ShowMessage "Finished download."])%list
       /\ forall ev, In ev pre -> ~ is_shutdown_event ev.
Proof.
  split.
  - apply example_run_sees_exit.
  - apply (shutdown_sequence_after_exit
             (example_env "1000" [0; 100; 500; 1000] 0) example_state 0).
    apply example_run_sees_exit.
Defined.

(* ===================================================================== *)
(** * The exit status of the merge *)
(* ===================================================================== *)

Lemma bind_fst {A B} (c : M A) (k : A -> M B) (st : state) :
  fst (bind c k st)
  = match fst (c st) with
    | Ok a => fst (k a (snd (c st)))
    | Raise x => Raise x
    end.
Proof. unfold bind. destruct (c st) as [[a | x] st1]; reflexivity. Qed.

Lemma bind_fst_ext {A B} (c : M A) (k k' : A -> M B) (st : state) :
  (forall a st1, fst (k a st1) = fst (k' a st1)) ->
  fst (bind c k st) = fst (bind c k' st).
Proof.
  intros H. rewrite !bind_fst. destruct (fst (c st)); [apply H | reflexivity].
Qed.

(** Whether the polling loop returns depends on the total and on the
    samples only. *)
Lemma poll_loop_fst (tot : pyfloat) (q : list Z) (c c' : Z) :
  forall st st', fst (poll_loop tot q c st) = fst (poll_loop tot q c' st').
Proof.
  induction q as [| n q IH]; intros st st'; [reflexivity |].
  cbn [poll_loop]. mstep.
  destruct (merge_percent n tot) as [p | x]; mstep; [apply IH | reflexivity].
Qed.

Lemma merge_files_fst (m : merge_run) (c : Z) (v a : string) (tot : pyfloat)
    (st : state) :
  fst (merge_files {| popen_fault := popen_fault m; samples := samples m;
                      merge_returncode := c |} v a tot st)
  = fst (merge_files m v a tot st).
Proof.
  unfold merge_files. cbn [popen_fault samples merge_returncode]. mstep.
  destruct (popen_fault m); [reflexivity |]. mstep.
  rewrite !bind_fst.
  match goal with
  | |- context [fst (poll_loop tot (samples m) c ?s1)] =>
      rewrite (poll_loop_fst tot (samples m) c (merge_returncode m) s1 s1)
  end.
  destruct (fst (poll_loop tot (samples m) (merge_returncode m) _));
    reflexivity.
Qed.

Lemma download_video_fst_returncode (e : env) (c : Z) (st : state) :
  fst (download_video (with_returncode c e) st) = fst (download_video e st).
Proof.
  unfold download_video, with_returncode. cbn [probe merge].
  do 7 (apply bind_fst_ext; intros).
  apply merge_files_fst.
Qed.

(** C4, as the code has it.  The exit status of the merge subprocess is not
    inspected.  In every run in which the polling loop sees the process
    exit, with status [c], zero or not, the run shuts down, shows
    "Finished download." and returns "Download complete."; and the run
    returns the same with any other exit status. *)
Theorem merge_exit_status_is_ignored (e : env) (st : state) (c : Z) :
  In (Polled (Some c)) (events_of_run e st) ->
  fst (download_video e st) = Ok "Download complete."
  /\ List.last (events_of_run e st) Slept = ShowMessage "Finished download."
  /\ forall c', fst (download_video (with_returncode c' e) st)
                = Ok "Download complete.".
Proof.
  intros Hin. destruct (run_after_exit e st c Hin) as (Hok & pre & Hevs & _ & _).
  split; [exact Hok |]. split.
  - rewrite Hevs.
    change [Polled (Some c); PipeClosed; ReaderJoined; Waited c;
            ShowMessage "Finished download."]
      with ([Polled (Some c); PipeClosed; ReaderJoined; Waited c]
              ++ [ShowMessage "Finished download."])%list.
    rewrite app_assoc. apply last_last.
  - intros c'. rewrite download_video_fst_returncode. exact Hok.
Qed.

Lemma merge_exit_status_is_ignored_witness :
  In (Polled (Some 1))
     (events_of_run (example_env "1000" [0; 100; 500; 1000] 1) example_state)
  /\ fst (download_video (example_env "1000" [0; 100; 500; 1000] 1) example_state)
     = Ok "Download complete."
  /\ List.last (events_of_run (example_env "1000" [0; 100; 500; 1000] 1)
                  example_state) Slept
     = ShowMessage "Finished download."
  /\ forall c',
       fst (download_video
              (with_returncode c' (example_env "1000" [0; 100; 500; 1000] 1))
              example_state)
       = Ok "Download complete.".
Proof.
  split.
  - apply example_run_sees_exit.
  - apply (merge_exit_status_is_ignored
             (example_env "1000" [0; 100; 500; 1000] 1) example_state 1).
    apply example_run_sees_exit.
Defined.

(** C4 fails as stated: when ffmpeg exits with status 1 the run does not
    end in an error; it returns "Download complete." like any other run. *)
Lemma merge_failure_counterexample :
  let e := example_env "1000" [0; 100; 500; 1000] 1 in
  merge_returncode (merge e) = 1
  /\ In (Waited 1) (events_of_run e example_state)
  /\ fst (download_video e example_state) = Ok "Download complete."
  /\ ~ exists x, fst (download_video e example_state) = Raise x.
Proof.
  cbv zeta.
  assert (H : fst (download_video (example_env "1000" [0; 100; 500; 1000] 1)
                     example_state) = Ok "Download complete.")
    by (vm_compute; reflexivity).
  split; [reflexivity |]. split; [vm_compute; tauto |]. split; [exact H |].
  intros (x & Hx). rewrite H in Hx. discriminate.
Qed.

(* ===================================================================== *)
(** * Downloads, probe and merge in time *)
(* ===================================================================== *)

Lemma is_merge_event_stage (p q : stage) (ev : event) :
  next_stage p ev = Some q -> is_merge_event ev ->
  (3 <= stage_rank p)%nat /\ (4 <= stage_rank q)%nat.
Proof.
  destruct ev; try contradiction; destruct p; simpl; try discriminate;
    try (intros H _; injection H as <-; simpl; lia).
  destruct status; intros H _; injection H as <-; simpl; lia.
Qed.

Lemma DownloadCalled_stage (p q : stage) (path : string) :
  next_stage p (DownloadCalled path) = Some q -> p = Idle.
Proof. destruct p; simpl; try discriminate. reflexivity. Qed.


(** C8, as the code has it.  In every run of [download_video], when ffmpeg
    is started, and whenever the polling loop polls or sleeps before it
    computes a percentage, the probe has already exited, every download
    call made before has returned, and no download call is made later.
    (A stream that the lookup does not find is not downloaded at all.) *)
Theorem merge_after_probe_and_downloads (e : env) (st : state)
    (pre post : list event) (ev : event) :
  events_of_run e st = (pre ++ ev :: post)%list ->
  is_merge_event ev ->
  (exists rc, In (ProbeExited rc) pre)
  /\ (forall path, In (DownloadCalled path) pre -> In (DownloadReturned path) pre)
  /\ (forall path, ~ In (DownloadCalled path) post).
Proof.
  intros Hevs Hev.
  assert (Hrun : exists s, run_stages Idle (events_of_run e st) = Some s).
  { destruct (download_video_stages e st) as [_ H].
    destruct (fst (download_video e st)); [eauto |].
    destruct H as (s & _ & H). eauto. }
  destruct Hrun as (s & Hrun). rewrite Hevs in Hrun.
  destruct (run_stages_split _ _ _ _ _ Hrun) as (p1 & q1 & Hpre & Hn & Hpost).
  destruct (is_merge_event_stage _ _ _ Hn Hev) as [Hp1 Hq1].
  split; [| split].
  - apply (run_stages_ProbeExited pre Idle p1 Hpre); simpl; lia.
  - intros path Hin.
    destruct (run_stages_downloads_return pre Idle p1 path Hpre Hin) as [-> | H];
      [simpl in Hp1; lia | exact H].
  - intros path Hin.
    destruct (run_stages_In post _ q1 s Hpost Hin) as (p2 & q2 & H2 & Hlo & _).
    apply DownloadCalled_stage in H2. subst p2. simpl in Hlo. lia.
Qed.

Lemma merge_after_probe_and_downloads_witness :
  let e := example_env "1000" [0; 100; 500; 1000] 0 in
  let pre := firstn 19 (events_of_run e example_state) in
  let post := skipn 20 (events_of_run e example_state) in
  let ev :=
    Popen "ffmpeg -y -loglevel error -i /tmp/tmpx/video.mp4 -i /tmp/tmpx/audio.mp3 -codec:v copy -codec:a copy -progress pipe:1"
          "/home/user/Title.mp4" in
  events_of_run e example_state = (pre ++ ev :: post)%list
  /\ is_merge_event ev
  /\ (exists rc, In (ProbeExited rc) pre)
  /\ (forall path, In (DownloadCalled path) pre -> In (DownloadReturned path) pre)
  /\ (forall path, ~ In (DownloadCalled path) post).
Proof.
  cbv zeta.
  assert (H1 : events_of_run (example_env "1000" [0; 100; 500; 1000] 0) example_state
               = (firstn 19 (events_of_run (example_env "1000" [0; 100; 500; 1000] 0)
                               example_state)
                  ++ Popen "ffmpeg -y -loglevel error -i /tmp/tmpx/video.mp4 -i /tmp/tmpx/audio.mp3 -codec:v copy -codec:a copy -progress pipe:1"
                           "/home/user/Title.mp4"
                  :: skipn 20 (events_of_run (example_env "1000" [0; 100; 500; 1000] 0)
                                 example_state))%list)
    by (vm_compute; reflexivity).
  split; [exact H1 |]. split; [exact I |].
  exact (merge_after_probe_and_downloads _ _ _ _ _ H1 I).
Defined.

(** C8 fails as stated.  When the first audio label names an itag that the
    loaded video does not have, the lookup gives [None], the audio download
    is skipped, and ffmpeg is started all the same, on an audio file that
    this run never wrote. *)
Lemma merge_without_audio_download_counterexample :
  let e := example_env "1000" [0] 0 in
  let st' := snd (download_video e example_state_stale_audio) in
  audio_stream (win st') = None
  /\ In (Popen "ffmpeg -y -loglevel error -i /tmp/tmpx/video.mp4 -i /tmp/tmpx/audio.mp3 -codec:v copy -codec:a copy -progress pipe:1"
               "/home/user/Title.mp4")
        (events_of_run e example_state_stale_audio)
  /\ ~ In (DownloadCalled "/tmp/tmpx/audio.mp3")
          (events_of_run e example_state_stale_audio)
  /\ ~ In (DownloadReturned "/tmp/tmpx/audio.mp3")
          (events_of_run e example_state_stale_audio)
  /\ elements (files (fs st')) = ["/tmp/tmpx/video.mp4"].
Proof.
  cbv zeta. split; [vm_compute; reflexivity |].
  split; [vm_compute; tauto |].
  split; [vm_compute; intuition discriminate |].
  split; [vm_compute; intuition discriminate |].
  vm_compute. reflexivity.
Qed.

(* ===================================================================== *)
(** * The run without an audio entry *)
(* ===================================================================== *)

(** C6 (the code at the failing input).  When the loaded video offers no
    audio entry, [download_video] shows "No audio stream available.", leaves
    [audio_itag] unassigned and then raises [UnboundLocalError] when it
    looks the audio stream up: nothing is downloaded or merged, and the
    worker reports the exception through its [error] signal. *)
Theorem no_audio_run_raises_UnboundLocalError
    (e : env) (format_exc : exn -> string) :
  fst (download_video e example_state_no_audio) = Raise UnboundLocalError
  /\ events_of_run e example_state_no_audio
     = [ShowMessage "No audio stream available."]
  /\ Worker_run format_exc (fst (download_video e example_state_no_audio))
     = [PrintExc (format_exc UnboundLocalError);
        Emit (error UnboundLocalError UnboundLocalError
                (format_exc UnboundLocalError));
        Emit finished].
Proof.
  assert (H : download_video e example_state_no_audio
              = (Raise UnboundLocalError,
                 {| win := set_video_stream (Some example_video)
                             (win example_state_no_audio);
                    fs := fs example_state_no_audio;
                    trace := [ShowMessage "No audio stream available."] |}))
    by reflexivity.
  unfold events_of_run. rewrite H. repeat split.
Qed.

(* ===================================================================== *)
(** * The scratch folder *)
(* ===================================================================== *)


Section Scratch.
Variable st0 : state.

Let I := scratch_kept st0.




















End Scratch.



(* ===================================================================== *)
(** * The frame counter *)
(* ===================================================================== *)





Lemma digit_not_space (c : ascii) : is_digit c = true -> is_space c = false.
Proof.
  unfold is_digit, is_space. intros H.
  apply andb_true_iff in H as [H1 H2].
  apply Z.leb_le in H1. apply Z.leb_le in H2.
  apply orb_false_iff. split; apply andb_false_iff.
  - right. apply Z.leb_gt. lia.
  - right. apply Z.leb_gt. lia.
Qed.

Lemma only_digits_numeral (d : Decimal.uint) :
  only_digits (NilEmpty.string_of_uint d) = true.
Proof. induction d; simpl; auto. Qed.

Lemma only_digits_rstrip (s : string) : only_digits s = true -> rstrip s = s.
Proof.
  induction s as [| c r IH]; [reflexivity |]. simpl.
  intros H. apply andb_true_iff in H as [Hc Hr].
  rewrite (IH Hr). rewrite (digit_not_space c Hc).
  destruct r; reflexivity.
Qed.

Lemma only_digits_strip (s : string) : only_digits s = true -> strip s = s.
Proof.
  intros H. unfold strip.
  replace (lstrip s) with s; [apply only_digits_rstrip, H |].
  destruct s as [| c r]; [reflexivity |]. simpl in *.
  apply andb_true_iff in H as [Hc _].
  rewrite (digit_not_space c Hc). reflexivity.
Qed.












(* ===================================================================== *)
(** * The polling loop and the reader thread together *)
(* ===================================================================== *)

Lemma chain_tail {A} (ord : A -> A -> Prop) (a : A) (l : list A) :
  chain ord (a :: l) -> chain ord l.
Proof. destruct l; simpl; tauto. Qed.

Lemma chain_init {A} (ord : A -> A -> Prop) (l : list A) (a : A) :
  chain ord (l ++ [a]) -> chain ord l.
Proof.
  induction l as [| x l IH]; [exact (fun _ => I) |].
  destruct l as [| y l]; [exact (fun _ => I) |].
  simpl. intros [H1 H2]. split; [exact H1 | apply IH, H2].
Qed.

Lemma chain_replace_last (l : list Z) (a b : Z) :
  ascending (l ++ [a]) -> a <= b -> ascending (l ++ [b]).
Proof.
  unfold ascending. induction l as [| x l IH]; [exact (fun _ _ => I) |].
  destruct l as [| y l].
  - simpl. intros [H _] Hab. split; [lia | exact I].
  - simpl. intros [H1 H2] Hab. split; [exact H1 | apply IH; assumption].
Qed.

Lemma chain_snoc (l : list Z) (a b : Z) :
  ascending (l ++ [a]) -> a <= b -> ascending ((l ++ [a]) ++ [b]).
Proof.
  unfold ascending. induction l as [| x l IH].
  - simpl. intros _ Hab. auto.
  - destruct l as [| y l].
    + simpl. intros [H _] Hab. auto.
    + simpl. intros [H1 H2] Hab. split; [exact H1 | apply IH; assumption].
Qed.

Lemma progress_reader_line_frame (l : string) (q : Z) :
  match frame_of l with
  | Some v => progress_reader_line l q = Ok v
  | None => progress_reader_line l q = Ok q
            \/ exists e, progress_reader_line l q = Raise e
  end.
Proof.
  unfold frame_of, progress_reader_line.
  destruct (startswith "frame=" l); [| auto].
  destruct (py_int (partition_last "=" l)); eauto.
Qed.

Lemma set_values_snoc_other (evs : list event) (ev : event) :
  (forall p, ev <> SetValue p) -> set_values (evs ++ [ev]) = set_values evs.
Proof.
  intros H. rewrite set_values_app.
  destruct ev; simpl; try apply app_nil_r. exfalso. eapply H. reflexivity.
Qed.

Section MergePhase.
Variable P : Z -> Prop.
Variable tot : pyfloat.
Hypothesis tot_ok : forall n, exists p, merge_percent n tot = Ok p.

Lemma child_step_invariant (s s' : merge_state) :
  merge_invariant P tot s -> child_step s = Some s' -> merge_invariant P tot s'.
Proof.
  unfold child_step. intros Inv H.
  destruct (exit_status s); [discriminate |].
  destruct (lines_left s) as [| l ls] eqn:El; injection H as <-;
    unfold merge_invariant in *; cbn [pipe lines_left q0 sampled log main].
  - rewrite El in Inv. exact Inv.
  - rewrite El in Inv. rewrite <- app_assoc. exact Inv.
Qed.

Lemma reader_step_invariant (s s' : merge_state) :
  merge_invariant P tot s -> reader_step s = Some s' -> merge_invariant P tot s'.
Proof.
  unfold reader_step. intros Inv H.
  assert (Hsame : forall r, merge_invariant P tot (with_reader s (pipe s) (q0 s) r))
    by (intros r; exact Inv).
  destruct (reader s).
  - destruct (exit_status s); injection H as <-; apply Hsame.
  - destruct (pipe_closed s); [injection H as <-; apply Hsame |].
    destruct (pipe s) as [| l ls] eqn:Ep.
    + destruct (exit_status s); [| discriminate].
      change (progress_reader_line "" (q0 s)) with (Ok (q0 s) : res Z) in H.
      injection H as <-. apply Hsame.
    + destruct Inv as (I1 & I2 & I3 & I4 & I5 & I6).
      rewrite Ep in I1, I3. cbn [app frames] in I1, I3.
      pose proof (progress_reader_line_frame l (q0 s)) as Hl.
      destruct (frame_of l) as [v |] eqn:Ef.
      * rewrite Hl in H. injection H as <-.
        unfold merge_invariant; cbn [pipe lines_left q0 sampled log main with_reader].
        repeat split; auto.
        -- exact (chain_tail _ _ _ I1).
        -- apply (chain_replace_last _ _ _ I2). destruct I1 as [Hle _]. exact Hle.
        -- inversion I3; assumption.
      * assert (Hkeep : forall r, merge_invariant P tot (with_reader s ls (q0 s) r)).
        { intros r. unfold merge_invariant;
            cbn [pipe lines_left q0 sampled log main with_reader].
          repeat split; auto. }
        destruct Hl as [Hl | (e & Hl)]; rewrite Hl in H; injection H as <-;
          apply Hkeep.
  - discriminate.
  - discriminate.
Qed.

Lemma main_step_invariant (s s' : merge_state) :
  merge_invariant P tot s -> main_step tot s = Some s' -> merge_invariant P tot s'.
Proof.
  unfold main_step. intros Inv H.
  assert (Hquiet : forall closed m evs,
             (forall e, m <> MDied e) ->
             set_values (log s ++ evs) = set_values (log s) ->
             merge_invariant P tot (with_main s closed m [] evs)).
  { intros closed m evs Hm Hevs. destruct Inv as (I1 & I2 & I3 & I4 & I5 & I6).
    unfold merge_invariant; cbn [pipe lines_left q0 sampled log main with_main].
    rewrite app_nil_r, Hevs. repeat split; auto. }
  destruct (main s) eqn:Em.
  - destruct (exit_status s); injection H as <-; apply Hquiet;
      try discriminate; apply set_values_snoc_other; discriminate.
  - destruct (tot_ok (q0 s)) as (p & Hp). rewrite Hp in H. injection H as <-.
    destruct Inv as (I1 & I2 & I3 & I4 & I5 & I6).
    unfold merge_invariant; cbn [pipe lines_left q0 sampled log main with_main].
    repeat split; auto; try discriminate.
    + apply chain_snoc; [exact I2 | lia].
    + apply Forall_app. split; [exact I4 |]. constructor; [| constructor].
      inversion I3; assumption.
    + rewrite set_values_app. cbn [set_values].
      apply Forall2_app; [exact I5 |]. constructor; [exact Hp | constructor].
  - injection H as <-. apply Hquiet; try discriminate.
    apply set_values_snoc_other; discriminate.
  - destruct (reader s); try discriminate; injection H as <-; apply Hquiet;
      try discriminate; apply set_values_snoc_other; discriminate.
  - destruct (exit_status s); [| discriminate]. injection H as <-.
    apply Hquiet; try discriminate. apply set_values_snoc_other; discriminate.
  - discriminate.
  - discriminate.
Qed.

Lemma exec_invariant (sched : list actor) :
  forall s s', merge_invariant P tot s -> exec tot sched s = Some s' ->
               merge_invariant P tot s'.
Proof.
  induction sched as [| a sched IH]; intros s s' Inv H; simpl in H.
  - injection H as <-. exact Inv.
  - destruct (step tot a s) as [s1 |] eqn:Hs; [| discriminate].
    apply (IH s1 s'); [| exact H].
    destruct a; simpl in Hs.
    + exact (child_step_invariant s s1 Inv Hs).
    + exact (reader_step_invariant s s1 Inv Hs).
    + exact (main_step_invariant s s1 Inv Hs).
Qed.
End MergePhase.

Lemma Forall2_last_value {A} (R : A -> pyfloat -> Prop) (d : A)
    (ns : list A) (ps : list pyfloat) :
  Forall2 R ns ps ->
  forall p, List.last (List.map Some ps) None = Some p -> R (List.last ns d) p.
Proof.
  intros HF. induction HF as [| a p l l' Hap HF IH]; intros p0.
  - discriminate.
  - destruct HF as [| b q l l' Hbq HF].
    + simpl. intros H. injection H as <-. exact Hap.
    + intros H. apply IH. exact H.
Qed.

Lemma scenario_percent (n : Z) (p : pyfloat) :
  In n [0; 100; 500; 1000] -> merge_percent n (Fin 1000) = Ok p ->
  In p [Fin 0; Fin 10; Fin 50; Fin 100] /\ (p = Fin 100 -> n = 1000).
Proof.
  intros Hn Hp. simpl in Hn.
  destruct Hn as [<- | [<- | [<- | [<- | []]]]]; vm_compute in Hp;
    injection Hp as <-; (split; [simpl; tauto | ]); intros H;
    try reflexivity; discriminate H.
Qed.

Lemma scenario_start_invariant (code : Z) :
  merge_invariant (fun n => In n [0; 100; 500; 1000]) (Fin 1000)
                  (merge_start scenario_lines code).
Proof.
  unfold merge_invariant, merge_start;
    cbn [pipe lines_left q0 sampled log main app set_values].
  change (frames scenario_lines) with [100; 500; 1000].
  refine (conj _ (conj _ (conj _ (conj _ (conj _ _))))).
  - simpl. repeat split; lia.
  - exact I.
  - repeat constructor; simpl; tauto.
  - constructor.
  - constructor.
  - discriminate.
Qed.

(** C2, as the code has it.  With a total of 1000 frames and the progress
    lines frame=100, frame=500, frame=1000, whatever the order in which the
    process, the reader thread and the polling loop take their steps: the
    percentages handed to the progress bar are non-decreasing, each of them
    is 0, 10, 50 or 100, each is the percentage of the sample the loop took,
    and the last one is 100 only when the last sample taken was 1000.  The
    loop hands nothing to the bar once it has seen the exit, so 100 is
    reached in some runs (such as [late_sample_schedule]) and not in
    others. *)
Theorem merge_scenario_percentages (sched : list actor) (code : Z) :
  match exec (Fin 1000) sched (merge_start scenario_lines code) with
  | Some s =>
      nondecreasing (set_values (log s))
      /\ Forall (fun p => In p [Fin 0; Fin 10; Fin 50; Fin 100]) (set_values (log s))
      /\ Forall2 (fun n p => merge_percent n (Fin 1000) = Ok p)
                 (sampled s) (set_values (log s))
      /\ (last_set_value (log s) = Some (Fin 100) -> List.last (sampled s) 0 = 1000)
  | None => True
  end
  /\ exists s,
       exec (Fin 1000) late_sample_schedule (merge_start scenario_lines code) = Some s
       /\ main s = MDone
       /\ last_set_value (log s) = Some (Fin 100).
Proof.
  split.
  - destruct (exec (Fin 1000) sched (merge_start scenario_lines code)) as [s |] eqn:He;
      [| exact I].
    assert (Hok : forall n, exists p, merge_percent n (Fin 1000) = Ok p).
    { intros n. destruct (merge_percent_value n 1000) as (q & Hq & _);
        [discriminate | eauto]. }
    destruct (exec_invariant _ (Fin 1000) Hok sched _ s
                (scenario_start_invariant code) He)
      as (_ & I2 & _ & I4 & I5 & _).
    split; [| split; [| split]].
    + apply (nondecreasing_Forall2 (fun n p => merge_percent n (Fin 1000) = Ok p)
               Z.le (sampled s) (set_values (log s))).
      * intros a b p q Hab. apply merge_percent_mono; [reflexivity | exact Hab].
      * exact I5.
      * exact (chain_init _ _ _ I2).
    + apply (Forall2_Forall_r _ _ _ _ _
               (fun n p Hn Hp => proj1 (scenario_percent n p Hn Hp)) I5 I4).
    + exact I5.
    + intros Hlast.
      pose proof (Forall2_last_value _ 0 _ _ I5 _ Hlast) as Hp.
      assert (Hin : In (List.last (sampled s) 0) [0; 100; 500; 1000]).
      { destruct (sampled s) as [| n0 l] eqn:Es; [simpl; tauto |].
        rewrite <- Es in *. apply (proj1 (List.Forall_forall _ _) I4).
        rewrite Es.
        destruct (@List.exists_last _ (n0 :: l)) as (l' & a & E); [discriminate |].
        rewrite E. rewrite last_last. apply in_or_app. right. simpl. auto. }
      exact (proj2 (scenario_percent _ _ Hin Hp) eq_refl).
  - eexists. split; [vm_compute; reflexivity |].
    split; vm_compute; reflexivity.
Qed.

(** C2 fails as stated.  In the run [early_exit_schedule] the process writes
    frame=1000 and exits while the main thread sleeps after its second
    sample; the loop then sees the exit and stops: the values handed to the
    bar are 10 and 50, and the last one is not 100. *)
Lemma merge_scenario_counterexample :
  exists s,
    exec (Fin 1000) early_exit_schedule (merge_start scenario_lines 0) = Some s
    /\ main s = MDone
    /\ lines_left s = []
    /\ exit_status s = Some 0
    /\ set_values (log s) = [Fin 10; Fin 50]
    /\ last_set_value (log s) <> Some (Fin 100).
Proof.
  eexists. split; [vm_compute; reflexivity |].
  repeat (apply conj; [vm_compute; reflexivity |]).
  vm_compute. discriminate.
Qed.

(* ===================================================================== *)
(** * Labels: printing an itag and reading it back *)
(* ===================================================================== *)

Ltac parse_digit IH :=
  cbn [NilEmpty.string_of_uint parse_digits Pos.of_uint_acc Pos.of_uint Z.of_N];
  match goal with
  | |- context [is_digit ?c] => change (is_digit c) with true
  end;
  cbv iota;
  match goal with
  | |- context [digit_val ?c] =>
      let v := eval vm_compute in (digit_val c) in change (digit_val c) with v
  end;
  match goal with
  | |- parse_digits ?z _ _ = Some (Z.pos (Pos.of_uint_acc _ ?a)) =>
      replace z with (Z.pos a) by lia
  | |- parse_digits ?z _ _ = _ =>
      replace z with 0 by lia
  end;
  apply IH.

Lemma parse_digits_acc (d : Decimal.uint) :
  forall acc : positive,
    parse_digits (Z.pos acc) true (NilEmpty.string_of_uint d)
    = Some (Z.pos (Pos.of_uint_acc d acc)).
Proof.
  induction d; intros acc.
  - reflexivity.
  - parse_digit IHd.
  - parse_digit IHd.
  - parse_digit IHd.
  - parse_digit IHd.
  - parse_digit IHd.
  - parse_digit IHd.
  - parse_digit IHd.
  - parse_digit IHd.
  - parse_digit IHd.
  - parse_digit IHd.
Qed.

Lemma parse_digits_zeros (d : Decimal.uint) :
  parse_digits 0 true (NilEmpty.string_of_uint d) = Some (Z.of_N (Pos.of_uint d)).
Proof.
  induction d.
  - reflexivity.
  - parse_digit IHd.
  - parse_digit parse_digits_acc.
  - parse_digit parse_digits_acc.
  - parse_digit parse_digits_acc.
  - parse_digit parse_digits_acc.
  - parse_digit parse_digits_acc.
  - parse_digit parse_digits_acc.
  - parse_digit parse_digits_acc.
  - parse_digit parse_digits_acc.
  - parse_digit parse_digits_acc.
Qed.

Lemma parse_digits_numeral (d : Decimal.uint) :
  d <> Decimal.Nil ->
  parse_digits 0 false (NilEmpty.string_of_uint d) = Some (Z.of_N (Pos.of_uint d)).
Proof.
  destruct d; intros Hd; try contradiction.
  - parse_digit parse_digits_zeros.
  - parse_digit parse_digits_acc.
  - parse_digit parse_digits_acc.
  - parse_digit parse_digits_acc.
  - parse_digit parse_digits_acc.
  - parse_digit parse_digits_acc.
  - parse_digit parse_digits_acc.
  - parse_digit parse_digits_acc.
  - parse_digit parse_digits_acc.
  - parse_digit parse_digits_acc.
Qed.

Lemma parse_digits_decimal (n : N) :
  parse_digits 0 false (decimal n) = Some (Z.of_N n).
Proof.
  unfold decimal. rewrite parse_digits_numeral.
  - change (Pos.of_uint (N.to_uint n)) with (N.of_uint (N.to_uint n)).
    rewrite DecimalN.Unsigned.of_to. reflexivity.
  - destruct n; simpl; [discriminate | apply DecimalPos.Unsigned.to_uint_nonnil].
Qed.

Lemma decimal_digits (n : N) :
  only_digits (decimal n) = true /\ decimal n <> EmptyString.
Proof.
  split; [apply only_digits_numeral |].
  unfold decimal.
  assert (Hd : N.to_uint n <> Decimal.Nil).
  { destruct n; simpl; [discriminate | apply DecimalPos.Unsigned.to_uint_nonnil]. }
  destruct (N.to_uint n); simpl; try discriminate. contradiction.
Qed.

(** [int] reads a numeral followed by white space as the number. *)
Lemma py_int_digits (s : string) :
  only_digits s = true -> s <> EmptyString ->
  py_int s = match parse_digits 0 false s with
             | Some z => Ok z
             | None => Raise ValueError
             end.
Proof.
  intros H Hne. unfold py_int. rewrite (only_digits_strip s H).
  destruct s as [| c r]; [contradiction |].
  simpl in H. apply andb_true_iff in H as [Hc _].
  destruct c as [[] [] [] [] [] [] [] []]; try discriminate Hc; reflexivity.
Qed.

Lemma strip_minus (s : string) :
  only_digits s = true -> s <> EmptyString ->
  strip (String "-" s) = String "-" s.
Proof.
  intros H Hne. unfold strip. cbn [lstrip].
  change (is_space "-") with false. cbv iota.
  cbn [rstrip]. rewrite (only_digits_rstrip s H).
  destruct s; [contradiction | reflexivity].
Qed.

(** [int(str(z)) == z] *)
Lemma py_int_py_str_int (z : Z) : py_int (py_str_int z) = Ok z.
Proof.
  unfold py_str_int. destruct (z <? 0) eqn:Hz.
  - apply Z.ltb_lt in Hz.
    destruct (decimal_digits (Z.to_N (- z))) as [Hd Hne].
    unfold py_int. change ("-" ++ decimal (Z.to_N (- z)))
      with (String "-" (decimal (Z.to_N (- z)))).
    rewrite (strip_minus _ Hd Hne).
    rewrite parse_digits_decimal. simpl. f_equal. lia.
  - apply Z.ltb_ge in Hz.
    destruct (decimal_digits (Z.to_N z)) as [Hd Hne].
    rewrite (py_int_digits _ Hd Hne), parse_digits_decimal. f_equal. lia.
Qed.

Lemma only_digits_no_colon (s : string) : only_digits s = true -> no_colon s = true.
Proof.
  induction s as [| c r IH]; [reflexivity |]. simpl.
  intros H. apply andb_true_iff in H as [Hc Hr]. rewrite (IH Hr), andb_true_r.
  destruct c as [[] [] [] [] [] [] [] []]; try discriminate Hc; reflexivity.
Qed.

Lemma py_str_int_no_colon (z : Z) : no_colon (py_str_int z) = true.
Proof.
  unfold py_str_int. destruct (z <? 0).
  - change ("-" ++ decimal (Z.to_N (- z))) with (String "-" (decimal (Z.to_N (- z)))).
    simpl. apply only_digits_no_colon, decimal_digits.
  - apply only_digits_no_colon, decimal_digits.
Qed.

Lemma split_on_no_colon (s : string) : no_colon s = true -> split_on ":" s = [s].
Proof.
  induction s as [| c r IH]; [reflexivity |].
  cbn [no_colon split_on]. intros H. apply andb_true_iff in H as [Hc Hr].
  apply negb_true_iff in Hc. rewrite Hc, (IH Hr). reflexivity.
Qed.

Lemma split_on_colon (text rest : string) :
  no_colon text = true ->
  split_on ":" (text ++ ":" ++ rest) = text :: split_on ":" rest.
Proof.
  induction text as [| c r IH]; intros H.
  - reflexivity.
  - cbn [no_colon] in H. apply andb_true_iff in H as [Hc Hr].
    apply negb_true_iff in Hc.
    change (String c r ++ ":" ++ rest) with (String c (r ++ ":" ++ rest)).
    cbn [split_on]. rewrite Hc, (IH Hr). reflexivity.
Qed.

(** A label made of a text without colon, a colon and the printed itag
    reads back as that itag. *)
Lemma itag_of_label_printed (text : string) (z : Z) :
  no_colon text = true -> itag_of_label (text ++ ":" ++ py_str_int z) = Ok z.
Proof.
  intros H. unfold itag_of_label.
  rewrite (split_on_colon _ _ H), (split_on_no_colon _ (py_str_int_no_colon z)).
  simpl. apply py_int_py_str_int.
Qed.

(* ===================================================================== *)
(** * [available_resolutions]: the labels it makes *)
(* ===================================================================== *)

Lemma list_remove_In (x : string) (l l' : list string) (y : string) :
  list_remove x l = Some l' -> In y l' -> In y l.
Proof.
  revert l'. induction l as [| a l IH]; intros l' H Hy; simpl in H.
  - discriminate.
  - destruct (String.eqb a x).
    + injection H as <-. right. exact Hy.
    + destruct (list_remove x l) as [r |]; [| discriminate].
      injection H as <-. destruct Hy as [<- | Hy]; [left; reflexivity |].
      right. apply (IH r); [reflexivity | exact Hy].
Qed.

Lemma list_remove_None_iff (x : string) (l : list string) :
  list_remove x l = None <-> ~ In x l.
Proof.
  induction l as [| a l IH]; simpl.
  - split; [intros _ [] | reflexivity].
  - destruct (String.eqb a x) eqn:E.
    + apply String.eqb_eq in E. split; [discriminate | intros H; exfalso; auto].
    + apply String.eqb_neq in E. destruct (list_remove x l).
      * split; [discriminate |]. intros H. exfalso. apply H. right.
        destruct (List.in_dec String.string_dec x l) as [Hin | Hn]; [exact Hin |].
        exfalso. apply IH in Hn. discriminate.
      * split; [| reflexivity]. intros _ [H | H]; [auto |].
        revert H. apply IH. reflexivity.
Qed.

(** Removing [x] from a list that holds it at its head only gives the
    rest. *)
Lemma list_remove_app_absent (x : string) (l r : list string) :
  ~ In x r -> list_remove x (l ++ r) = option_map (fun l' => (l' ++ r)%list) (list_remove x l).
Proof.
  intros Hr. induction l as [| a l IH]; simpl.
  - apply list_remove_None_iff, Hr.
  - destruct (String.eqb a x); [reflexivity |].
    rewrite IH. destruct (list_remove x l); reflexivity.
Qed.

Lemma list_remove_existsb (x : string) (l : list string) :
  existsb (String.eqb x) l = match list_remove x l with Some _ => true | None => false end.
Proof.
  induction l as [| a l IH]; simpl; [reflexivity |].
  rewrite (String.eqb_sym x a). destruct (String.eqb a x); [reflexivity |].
  rewrite IH. destruct (list_remove x l); reflexivity.
Qed.

Lemma block_app (l1 l2 : list stmt) (g : selector) :
  block (l1 ++ l2) g = seq (block l1) (block l2) g.
Proof.
  revert g. induction l1 as [| c l1 IH]; intros g; simpl.
  - reflexivity.
  - unfold seq. destruct (c g) as [[[] | e] g1]; [| reflexivity].
    rewrite IH. reflexivity.
Qed.

Lemma adds_labels_nil : adds_labels (block []) [] [].
Proof. intros g. simpl. rewrite !app_nil_r. destruct g; reflexivity. Qed.

Lemma adds_labels_seq (c1 c2 : stmt) (v1 l1 v2 l2 : list string) :
  adds_labels c1 v1 l1 -> adds_labels c2 v2 l2 ->
  adds_labels (seq c1 c2) (v1 ++ v2) (l1 ++ l2).
Proof.
  intros H1 H2 g. unfold seq. rewrite H1, H2. simpl.
  rewrite !app_assoc. reflexivity.
Qed.

Lemma if_append_resolution_adds (test : list stream_info) (text : string)
    (pick : list stream_info) :
  (test <> [] -> pick <> []) ->
  adds_labels (if_append append_resolution test text pick)
              (label_list test text pick) [].
Proof.
  intros H g. unfold if_append, label_of, first, label_list.
  destruct test as [| t test]; [simpl; rewrite !app_nil_r; destruct g; reflexivity |].
  destruct pick as [| s pick]; [exfalso; apply H; [discriminate | reflexivity] |].
  simpl. unfold append_resolution. rewrite app_nil_r. reflexivity.
Qed.

Lemma if_append_audio_adds (test : list stream_info) (text : string)
    (pick : list stream_info) :
  (test <> [] -> pick <> []) ->
  adds_labels (if_append append_audio test text pick)
              [] (label_list test text pick).
Proof.
  intros H g. unfold if_append, label_of, first, label_list.
  destruct test as [| t test]; [simpl; rewrite !app_nil_r; destruct g; reflexivity |].
  destruct pick as [| s pick]; [exfalso; apply H; [discriminate | reflexivity] |].
  simpl. unfold append_audio. rewrite app_nil_r. reflexivity.
Qed.

Section CatalogFacts.
Variable ap : bool -> stream_info -> bool.
Variable catalog : list stream_info.

Lemma query_filter_In (c : criteria) (s : stream_info) :
  In s (query_filter ap c catalog) <-> In s catalog /\ passes ap c s = true.
Proof. unfold query_filter. apply filter_In. Qed.

Lemma query_filter_weaker (c c' : criteria) :
  (forall s, passes ap c s = true -> passes ap c' s = true) ->
  query_filter ap c catalog <> [] -> query_filter ap c' catalog <> [].
Proof.
  intros H Hne.
  destruct (query_filter ap c catalog) as [| s l] eqn:E; [contradiction |].
  assert (Hs : In s (query_filter ap c catalog)) by (rewrite E; left; reflexivity).
  apply query_filter_In in Hs as [Hin Hp].
  intros E'.
  assert (Hs' : In s (query_filter ap c' catalog))
    by (apply query_filter_In; split; [exact Hin | apply H, Hp]).
  rewrite E' in Hs'. exact Hs'.
Qed.

Lemma passes_abr_mime_type (b m : string) (s : stream_info) :
  passes ap (want_abr_mime_type b m) s = true
  <-> attribute_is (abr s) b = true /\ mime_type s = m.
Proof.
  unfold passes, want_abr_mime_type. simpl. rewrite andb_true_r.
  rewrite andb_true_iff, String.eqb_eq. reflexivity.
Qed.

Lemma passes_abr (b : string) (s : stream_info) :
  passes ap (want_abr b) s = true <-> attribute_is (abr s) b = true.
Proof.
  unfold passes, want_abr. simpl. rewrite !andb_true_r. reflexivity.
Qed.

Lemma passes_resolution_has (c : criteria) (r : string) (s : stream_info) :
  by_resolution c = Some r -> passes ap c s = true -> has_resolution s.
Proof.
  unfold passes, has_resolution. intros -> H.
  destruct (resolution s); [discriminate |]. discriminate H.
Qed.

Lemma passes_abr_has (b : string) (s : stream_info) :
  passes ap (want_abr b) s = true -> has_abr s.
Proof.
  intros H. apply passes_abr in H. unfold has_abr.
  destruct (abr s); [discriminate | discriminate H].
Qed.

Lemma query_filter_no_mime_type (b m : string) :
  (forall s, In s catalog -> mime_type s <> m) ->
  query_filter ap (want_abr_mime_type b m) catalog = [].
Proof.
  intros Hno.
  destruct (query_filter ap (want_abr_mime_type b m) catalog) as [| s l] eqn:E;
    [reflexivity |].
  assert (Hs : In s (query_filter ap (want_abr_mime_type b m) catalog))
    by (rewrite E; left; reflexivity).
  apply query_filter_In in Hs as [Hin Hp].
  apply passes_abr_mime_type in Hp as [_ Hm].
  exfalso. exact (Hno s Hin Hm).
Qed.

(** The label of one statement names a stream that passes the query it was
    picked from. *)
Lemma label_list_names (want : stream_info -> Prop) (c : criteria)
    (test : list stream_info) (text : string) :
  (forall z, itag_of_label (text ++ py_str_int z) = Ok z) ->
  (forall s, passes ap c s = true -> want s) ->
  Forall (names_stream want catalog)
         (label_list test text (query_filter ap c catalog)).
Proof.
  intros Htext Hwant. unfold label_list.
  destruct test as [| t test]; [constructor |].
  destruct (query_filter ap c catalog) as [| s l] eqn:E; [constructor |].
  constructor; [| constructor].
  assert (Hs : In s (query_filter ap c catalog)) by (rewrite E; left; reflexivity).
  apply query_filter_In in Hs as [Hin Hp].
  exists s. split; [exact Hin |]. split; [apply Hwant, Hp | apply Htext].
Qed.

(** The label of an audio statement is made from the first stream with the
    bitrate, whatever its mime type, as soon as some stream with the bitrate
    is [audio/mp4]. *)
Lemma label_list_audio (b text : string) (s s' : stream_info) :
  first (query_filter ap (want_abr b) catalog) = Some s ->
  In s' catalog -> abr s' = Some b -> mime_type s' = "audio/mp4" ->
  label_list (query_filter ap (want_abr_mime_type b "audio/mp4") catalog) text
             (query_filter ap (want_abr b) catalog)
  = [text ++ py_str_int (info_itag s)].
Proof.
  intros Hfirst Hin Habr Hmime. unfold label_list.
  destruct (query_filter ap (want_abr_mime_type b "audio/mp4") catalog) as [| t l] eqn:E.
  - exfalso.
    assert (Hs : In s' (query_filter ap (want_abr_mime_type b "audio/mp4") catalog)).
    { apply query_filter_In. split; [exact Hin |].
      apply passes_abr_mime_type. split; [| exact Hmime].
      unfold attribute_is. rewrite Habr. apply String.eqb_refl. }
    rewrite E in Hs. exact Hs.
  - unfold first in Hfirst.
    destruct (query_filter ap (want_abr b) catalog) as [| s0 l0]; [discriminate |].
    injection Hfirst as ->. reflexivity.
Qed.

(** The eleven [if] statements of [available_resolutions] append labels to
    the two lists, and the last three statements finish. *)
Lemma available_resolutions_adds :
  exists vs ls : list string,
    Forall (names_stream has_resolution catalog) vs
    /\ Forall (names_stream has_abr catalog) ls
    /\ (forall b s s',
          In b ["160kbps"; "128kbps"; "70kbps"; "48kbps"] ->
          first (query_filter ap (want_abr b) catalog) = Some s ->
          In s' catalog -> abr s' = Some b -> mime_type s' = "audio/mp4" ->
          In (b ++ " itag:" ++ py_str_int (info_itag s)) ls)
    /\ ((forall s, In s catalog -> mime_type s <> "audio/mp4") -> ls = [])
    /\ forall g,
         available_resolutions ap catalog g
         = block [remove_None; combobox_clear; combobox_addItems]
             {| resolutions := resolutions g ++ vs;
                audio_labels := audio_labels g ++ ls;
                combobox_items := combobox_items g |}.
Proof.
  set (f := fun c => query_filter ap c catalog).
  set (video := fun c text => label_list (f c) text (f c)).
  set (sound := fun b text =>
                  label_list (f (want_abr_mime_type b "audio/mp4")) text
                             (f (want_abr b))).
  exists (video (want_resolution "2160p") "2160 itag:"
          ++ video (want_resolution "1440p") "1440 itag:"
          ++ video (want_resolution "1080p") "1080 itag:"
          ++ video (want_resolution_adaptive "720p" true) "720 itag:"
          ++ video (want_resolution_adaptive "720p" false) "720 p itag:"
          ++ video (want_resolution_adaptive "480p" false) "480 p itag:"
          ++ video (want_resolution_adaptive "360p" false) "360 p itag:"
          ++ [] ++ [] ++ [] ++ [] ++ [])%list.
  exists ([] ++ [] ++ [] ++ [] ++ [] ++ [] ++ []
          ++ sound "160kbps" "160kbps itag:"
          ++ sound "128kbps" "128kbps itag:"
          ++ sound "70kbps" "70kbps itag:"
          ++ sound "48kbps" "48kbps itag:" ++ [])%list.
  split; [| split; [| split; [| split]]].
  - repeat match goal with
           | |- Forall _ (_ ++ _) => apply List.Forall_app; split
           | |- Forall _ [] => constructor
           end;
      unfold video, f;
      (eapply label_list_names;
       [intros z;
        first [ exact (itag_of_label_printed "2160 itag" z eq_refl)
              | exact (itag_of_label_printed "1440 itag" z eq_refl)
              | exact (itag_of_label_printed "1080 itag" z eq_refl)
              | exact (itag_of_label_printed "720 itag" z eq_refl)
              | exact (itag_of_label_printed "720 p itag" z eq_refl)
              | exact (itag_of_label_printed "480 p itag" z eq_refl)
              | exact (itag_of_label_printed "360 p itag" z eq_refl) ]
       | intros s H; refine (passes_resolution_has _ _ s _ H); reflexivity ]).
  - repeat match goal with
           | |- Forall _ (_ ++ _) => apply List.Forall_app; split
           | |- Forall _ [] => constructor
           end;
      unfold sound, f;
      (eapply label_list_names;
       [intros z;
        first [ exact (itag_of_label_printed "160kbps itag" z eq_refl)
              | exact (itag_of_label_printed "128kbps itag" z eq_refl)
              | exact (itag_of_label_printed "70kbps itag" z eq_refl)
              | exact (itag_of_label_printed "48kbps itag" z eq_refl) ]
       | intros s; apply passes_abr_has ]).
  - intros b s s' Hb Hfirst Hin Habr Hmime.
    pose proof (fun text => label_list_audio b text s s' Hfirst Hin Habr Hmime) as Hl.
    simpl in Hb.
    destruct Hb as [<- | [<- | [<- | [<- | []]]]]; unfold sound, f; rewrite !Hl;
      simpl; repeat rewrite in_app_iff; simpl; tauto.
  - intros Hno. unfold sound, f.
    rewrite !(query_filter_no_mime_type _ "audio/mp4" Hno). reflexivity.
  - intros g. unfold available_resolutions.
    fold f.
    match goal with
    | |- block ?l g = _ =>
        change l with (firstn 11 l ++ [remove_None; combobox_clear; combobox_addItems])%list
    end.
    rewrite block_app. cbn [firstn block].
    assert (Haudio : forall b, f (want_abr_mime_type b "audio/mp4") <> [] ->
                               f (want_abr b) <> []).
    { intros b. apply query_filter_weaker. intros s Hs.
      apply passes_abr_mime_type in Hs as [Hs _]. apply passes_abr, Hs. }
    match goal with
    | |- seq ?c ?k g = _ =>
        assert (Hadds : adds_labels c
                  (video (want_resolution "2160p") "2160 itag:"
                   ++ video (want_resolution "1440p") "1440 itag:"
                   ++ video (want_resolution "1080p") "1080 itag:"
                   ++ video (want_resolution_adaptive "720p" true) "720 itag:"
                   ++ video (want_resolution_adaptive "720p" false) "720 p itag:"
                   ++ video (want_resolution_adaptive "480p" false) "480 p itag:"
                   ++ video (want_resolution_adaptive "360p" false) "360 p itag:"
                   ++ [] ++ [] ++ [] ++ [] ++ [])%list
                  ([] ++ [] ++ [] ++ [] ++ [] ++ [] ++ []
                   ++ sound "160kbps" "160kbps itag:"
                   ++ sound "128kbps" "128kbps itag:"
                   ++ sound "70kbps" "70kbps itag:"
                   ++ sound "48kbps" "48kbps itag:" ++ [])%list)
    end.
    { do 7 (apply adds_labels_seq;
            [apply if_append_resolution_adds; intros H; exact H |]).
      do 4 (apply adds_labels_seq;
            [apply if_append_audio_adds; apply Haudio |]).
      apply adds_labels_nil. }
    unfold seq at 1. rewrite Hadds. reflexivity.
Qed.

(** What the three last statements do. *)
Lemma finish_run (g : selector) :
  block [remove_None; combobox_clear; combobox_addItems] g
  = match list_remove "None" (resolutions g) with
    | Some l => (Ok tt, {| resolutions := l; audio_labels := audio_labels g;
                           combobox_items := l |})
    | None => (Raise ValueError, g)
    end.
Proof.
  simpl. unfold seq, remove_None.
  destruct (list_remove "None" (resolutions g)); reflexivity.
Qed.

Lemma names_stream_not_None (want : stream_info -> Prop) (l : list string) :
  Forall (names_stream want catalog) l -> ~ In "None" l.
Proof.
  intros H Hin. apply (proj1 (List.Forall_forall _ _) H) in Hin.
  destruct Hin as (s & _ & _ & Hs). discriminate Hs.
Qed.

(** The whole of [available_resolutions]: the labels it appends are those
    of the first load of the catalog. *)
Lemma available_resolutions_run (g : selector) :
  let vs := resolutions (first_load ap catalog) in
  let ls := audio_labels (first_load ap catalog) in
  Forall (names_stream has_resolution catalog) vs
  /\ Forall (names_stream has_abr catalog) ls
  /\ combobox_items (first_load ap catalog) = vs
  /\ fst (available_resolutions ap catalog selector_init) = Ok tt
  /\ available_resolutions ap catalog g
     = match list_remove "None" (resolutions g) with
       | Some l =>
           (Ok tt, {| resolutions := l ++ vs;
                      audio_labels := audio_labels g ++ ls;
                      combobox_items := l ++ vs |})
       | None =>
           (Raise ValueError,
            {| resolutions := resolutions g ++ vs;
               audio_labels := audio_labels g ++ ls;
               combobox_items := combobox_items g |})
       end.
Proof.
  destruct available_resolutions_adds as (vs & ls & Hvs & Hls & _ & _ & Hrun).
  assert (Hfirst : available_resolutions ap catalog selector_init
                   = (Ok tt, {| resolutions := vs; audio_labels := ls;
                                combobox_items := vs |})).
  { rewrite Hrun, finish_run. reflexivity. }
  unfold first_load. rewrite Hfirst. simpl.
  split; [exact Hvs |]. split; [exact Hls |]. split; [reflexivity |].
  split; [reflexivity |].
  rewrite Hrun, finish_run. simpl.
  rewrite (list_remove_app_absent "None" (resolutions g) vs
             (names_stream_not_None _ _ Hvs)).
  destruct (list_remove "None" (resolutions g)); reflexivity.
Qed.
End CatalogFacts.

(** X1.  Every label that [available_resolutions] appends to
    [self.resolutions] or to [self.audio] reads back, with the expression
    [int(label.split(":")[1])] of [download_video], as the itag of a stream
    of the loaded video that has a resolution (has a bitrate, for an audio
    label): the labels of the lists after the call are the old ones or such
    labels, and after the first load of a new window every entry of the
    combo box and every audio label is one. *)
Theorem available_resolutions_labels_name_streams
    (ap : bool -> stream_info -> bool) (catalog : list stream_info) (g : selector) :
  let g' := snd (available_resolutions ap catalog g) in
  (forall l, In l (resolutions g') ->
             In l (resolutions g) \/ names_stream has_resolution catalog l)
  /\ (forall l, In l (audio_labels g') ->
                In l (audio_labels g) \/ names_stream has_abr catalog l)
  /\ Forall (names_stream has_resolution catalog)
            (combobox_items (first_load ap catalog))
  /\ Forall (names_stream has_abr catalog) (audio_labels (first_load ap catalog)).
Proof.
  destruct (available_resolutions_run ap catalog g)
    as (Hvs & Hls & Hcombo & _ & Hrun).
  cbv zeta. rewrite Hrun, Hcombo.
  split; [| split; [| split; [exact Hvs | exact Hls]]].
  - intros l Hl.
    destruct (list_remove "None" (resolutions g)) as [r |] eqn:E; simpl in Hl;
      apply in_app_or in Hl as [Hl | Hl].
    + left. exact (list_remove_In _ _ _ _ E Hl).
    + right. exact (proj1 (List.Forall_forall _ _) Hvs l Hl).
    + left. exact Hl.
    + right. exact (proj1 (List.Forall_forall _ _) Hvs l Hl).
  - intros l Hl.
    assert (Hl' : In l (audio_labels g ++ audio_labels (first_load ap catalog))).
    { destruct (list_remove "None" (resolutions g)); exact Hl. }
    apply in_app_or in Hl' as [Hl' | Hl']; [left; exact Hl' |].
    right. exact (proj1 (List.Forall_forall _ _) Hls l Hl').
Qed.

(** X2.  [available_resolutions] returns exactly when [self.resolutions]
    holds the entry "None" on entry: then the combo box shows the list.
    Otherwise [self.resolutions.remove("None")] raises [ValueError] after
    the labels have been appended, and the combo box still shows what it
    showed before.  The audio labels are appended in both cases. *)
Theorem available_resolutions_returns_iff_None_listed
    (ap : bool -> stream_info -> bool) (catalog : list stream_info) (g : selector) :
  let listed := existsb (String.eqb "None") (resolutions g) in
  let run := available_resolutions ap catalog g in
  fst run = (if listed then Ok tt else Raise ValueError)
  /\ combobox_items (snd run)
     = (if listed then resolutions (snd run) else combobox_items g)
  /\ (if listed then True
      else resolutions (snd run)
           = (resolutions g ++ resolutions (first_load ap catalog))%list)
  /\ audio_labels (snd run)
     = (audio_labels g ++ audio_labels (first_load ap catalog))%list.
Proof.
  destruct (available_resolutions_run ap catalog g) as (_ & _ & _ & _ & Hrun).
  cbv zeta. rewrite Hrun, list_remove_existsb.
  destruct (list_remove "None" (resolutions g)); simpl; auto.
Qed.

(** X3.  The first load of a window returns and takes "None" off the list;
    a second load that no [dragEnterEvent] precedes therefore raises
    [ValueError]: the combo box keeps the entries of the first video, while
    both lists have grown by the labels of the second one. *)
Theorem second_load_raises_ValueError
    (ap : bool -> stream_info -> bool) (c1 c2 : list stream_info) :
  let g1 := first_load ap c1 in
  let run := available_resolutions ap c2 g1 in
  fst (available_resolutions ap c1 selector_init) = Ok tt
  /\ fst run = Raise ValueError
  /\ combobox_items (snd run) = combobox_items g1
  /\ resolutions (snd run) = (resolutions g1 ++ resolutions (first_load ap c2))%list
  /\ audio_labels (snd run)
     = (audio_labels g1 ++ audio_labels (first_load ap c2))%list.
Proof.
  destruct (available_resolutions_run ap c1 selector_init)
    as (Hvs & _ & _ & Hfirst & _).
  destruct (available_resolutions_run ap c2 (first_load ap c1))
    as (_ & _ & _ & _ & Hrun).
  cbv zeta. rewrite Hrun.
  rewrite (proj2 (list_remove_None_iff "None" _)
             (names_stream_not_None c1 _ _ Hvs)).
  simpl. auto.
Qed.

(** X4.  [dragEnterEvent] accepts the event whether or not it carries URLs
    and puts "None" back, so that the next load returns and the combo box
    shows the entries of the new video only; [self.audio] is not cleared:
    it holds the labels of the first video followed by those of the second,
    and [self.audio[0]], the label [download_video] reads, is still the
    first label of the first video when that video had one. *)
Theorem audio_labels_survive_reload
    (ap : bool -> stream_info -> bool) (c1 c2 : list stream_info) (has_urls : bool) :
  let g1 := first_load ap c1 in
  let drag := dragEnterEvent has_urls g1 in
  let run := available_resolutions ap c2 (snd drag) in
  fst drag = Accepted
  /\ fst run = Ok tt
  /\ combobox_items (snd run) = combobox_items (first_load ap c2)
  /\ audio_labels (snd run)
     = (audio_labels g1 ++ audio_labels (first_load ap c2))%list
  /\ list_getitem (audio_labels (snd run)) 0
     = match audio_labels g1 with
       | label :: _ => Ok label
       | [] => list_getitem (audio_labels (first_load ap c2)) 0
       end.
Proof.
  destruct (available_resolutions_run ap c2
              (snd (dragEnterEvent has_urls (first_load ap c1))))
    as (_ & _ & Hcombo & _ & Hrun).
  cbv zeta. rewrite Hrun, Hcombo. simpl.
  repeat (apply conj; [reflexivity |]).
  destruct (audio_labels (first_load ap c1)); reflexivity.
Qed.

(** X5.  The audio label for a bitrate is made from the first stream that
    has the bitrate, whatever its mime type: the test of the [if] asks for
    [audio/mp4], the query the itag is taken from does not.  As soon as
    some stream with the bitrate is [audio/mp4], the label carries the itag
    of the first stream with the bitrate, and [download_video] reads that
    itag back. *)
Theorem audio_label_made_from_first_stream_of_bitrate
    (ap : bool -> stream_info -> bool) (catalog : list stream_info) (g : selector)
    (b : string) (s s' : stream_info) :
  In b ["160kbps"; "128kbps"; "70kbps"; "48kbps"] ->
  first (query_filter ap (want_abr b) catalog) = Some s ->
  In s' catalog -> abr s' = Some b -> mime_type s' = "audio/mp4" ->
  In (b ++ " itag:" ++ py_str_int (info_itag s))
     (audio_labels (snd (available_resolutions ap catalog g)))
  /\ itag_of_label (b ++ " itag:" ++ py_str_int (info_itag s)) = Ok (info_itag s).
Proof.
  intros Hb Hfirst Hin Habr Hmime.
  destruct (available_resolutions_adds ap catalog)
    as (vs & ls & _ & _ & Hlabel & _ & Hrun).
  split.
  - rewrite Hrun, finish_run. simpl.
    assert (In (b ++ " itag:" ++ py_str_int (info_itag s)) (audio_labels g ++ ls))
      by (apply in_or_app; right; exact (Hlabel b s s' Hb Hfirst Hin Habr Hmime)).
    destruct (list_remove "None" (resolutions g ++ vs)); assumption.
  - simpl in Hb.
    destruct Hb as [<- | [<- | [<- | [<- | []]]]].
    + exact (itag_of_label_printed "160kbps itag" _ eq_refl).
    + exact (itag_of_label_printed "128kbps itag" _ eq_refl).
    + exact (itag_of_label_printed "70kbps itag" _ eq_refl).
    + exact (itag_of_label_printed "48kbps itag" _ eq_refl).
Qed.

Lemma audio_label_made_from_first_stream_of_bitrate_witness :
  In "160kbps itag:251"
     (audio_labels (snd (available_resolutions example_adaptive example_catalog
                           selector_init)))
  /\ itag_of_label "160kbps itag:251" = Ok 251.
Proof.
  apply (audio_label_made_from_first_stream_of_bitrate
           example_adaptive example_catalog selector_init "160kbps"
           {| info_itag := 251; resolution := None; abr := Some "160kbps";
              mime_type := "audio/webm"; is_adaptive := true |}
           {| info_itag := 141; resolution := None; abr := Some "160kbps";
              mime_type := "audio/mp4"; is_adaptive := true |}).
  - simpl. auto.
  - reflexivity.
  - simpl. auto.
  - reflexivity.
  - reflexivity.
Defined.

(* ===================================================================== *)
(** * From the labels to the streams of a run *)
(* ===================================================================== *)

Lemma first_load_no_audio (ap : bool -> stream_info -> bool)
    (catalog : list stream_info) :
  (forall s, In s catalog -> mime_type s <> "audio/mp4") ->
  audio_labels (first_load ap catalog) = [].
Proof.
  intros Hno.
  destruct (available_resolutions_adds ap catalog)
    as (vs & ls & _ & _ & _ & Hnone & Hrun).
  unfold first_load. rewrite Hrun, finish_run. simpl.
  rewrite (Hnone Hno).
  destruct (list_remove "None" ("None" :: vs)); reflexivity.
Qed.

(** [select_streams] when both labels read as itags and a video is
    loaded. *)
Lemma select_streams_found (st : state) (ia iv : Z) (query squery : list stream) :
  res_bind (list_getitem (audio (win st)) 0) itag_of_label = Ok ia ->
  itag_of_label (combobox_text (win st)) = Ok iv ->
  yt (win st) = Some query -> streams (win st) = Some squery ->
  select_streams st
  = (Ok tt,
     {| win := set_audio_stream (get_by_itag squery ia)
                 (set_video_stream (get_by_itag query iv) (win st));
        fs := fs st; trace := trace st |}).
Proof.
  intros Ha Hv Hyt Hs. unfold select_streams.
  rewrite bind_self, Ha, Hv. cbn [try_assign_itag]. rewrite !bind_ret.
  rewrite Hyt. cbn [attr_of local]. rewrite !bind_ret. rewrite bind_set_self.
  cbn [win fs trace set_video_stream streams]. rewrite Hs.
  cbn [attr_of local]. rewrite !bind_ret. unfold set_self. simpl.
  destruct st; reflexivity.
Qed.

(** [select_streams] when both labels read as itags and no video is
    loaded. *)
Lemma select_streams_no_video (st : state) (ia iv : Z) :
  res_bind (list_getitem (audio (win st)) 0) itag_of_label = Ok ia ->
  itag_of_label (combobox_text (win st)) = Ok iv ->
  yt (win st) = None ->
  select_streams st = (Raise AttributeError, st).
Proof.
  intros Ha Hv Hyt. unfold select_streams.
  rewrite bind_self, Ha, Hv. cbn [try_assign_itag]. rewrite !bind_ret.
  rewrite Hyt. cbn [attr_of]. rewrite bind_raise. reflexivity.
Qed.

(** [select_streams] when [self.audio] is empty. *)
Lemma select_streams_no_audio (st : state) (iv : Z) (query squery : list stream) :
  audio (win st) = [] ->
  itag_of_label (combobox_text (win st)) = Ok iv ->
  yt (win st) = Some query -> streams (win st) = Some squery ->
  select_streams st
  = (Raise UnboundLocalError,
     {| win := set_video_stream (get_by_itag query iv) (win st);
        fs := fs st;
        trace := trace st ++ [ShowMessage "No audio stream available."] |}).
Proof.
  intros Ha Hv Hyt Hs. unfold select_streams.
  rewrite bind_self, Ha, Hv.
  cbn [list_getitem nth_error res_bind try_assign_itag].
  rewrite bind_assoc, bind_emit. cbn [win fs trace]. rewrite !bind_ret.
  rewrite Hyt. cbn [attr_of local]. rewrite !bind_ret. rewrite bind_set_self.
  cbn [win fs trace set_video_stream streams]. rewrite Hs.
  cbn [attr_of local]. rewrite bind_ret, bind_raise. reflexivity.
Qed.

Lemma get_by_itag_describes (catalog : list stream_info) (query : list stream)
    (s : stream_info) :
  describes catalog query -> In s catalog ->
  exists v, get_by_itag query (info_itag s) = Some v
            /\ itag v = info_itag s /\ In v query.
Proof.
  unfold describes. intros Hd Hs.
  assert (Hi : In (info_itag s) (List.map itag query))
    by (rewrite <- Hd; apply in_map, Hs).
  apply in_map_iff in Hi as (v0 & Hv0 & Hin0).
  unfold get_by_itag.
  destruct (List.find (fun x => itag x =? info_itag s) query) as [v |] eqn:E.
  - apply List.find_some in E as [Hin Hv]. apply Z.eqb_eq in Hv. eauto.
  - exfalso. pose proof (List.find_none _ _ E v0 Hin0) as H. simpl in H.
    rewrite Hv0, Z.eqb_refl in H. discriminate.
Qed.

(** X6.  After the first load of a video that has an audio label, whatever
    entry of the combo box is chosen, the first statements of
    [download_video] find both streams: the video stream is a stream of
    the query whose itag is the one the chosen entry reads as, the audio
    stream is the stream named by [self.audio[0]], and nothing is shown. *)
Theorem first_load_selects_listed_streams
    (ap : bool -> stream_info -> bool) (catalog : list stream_info)
    (query : list stream) (w : window) (choice output : string) (st : state) :
  describes catalog query ->
  In choice (combobox_items (first_load ap catalog)) ->
  audio_labels (first_load ap catalog) <> [] ->
  win st = loaded w query (audio_labels (first_load ap catalog)) choice output ->
  exists v a,
    select_streams st
    = (Ok tt, {| win := set_audio_stream (Some a)
                          (set_video_stream (Some v) (win st));
                 fs := fs st; trace := trace st |})
    /\ In v query /\ itag_of_label choice = Ok (itag v)
    /\ In a query
    /\ res_bind (list_getitem (audio_labels (first_load ap catalog)) 0)
                itag_of_label = Ok (itag a).
Proof.
  intros Hd Hchoice Haudio Hwin.
  destruct (available_resolutions_run ap catalog selector_init)
    as (Hvs & Hls & Hcombo & _ & _).
  rewrite Hcombo in Hchoice.
  destruct (proj1 (List.Forall_forall _ _) Hvs choice Hchoice)
    as (sv & Hsv & _ & Hiv).
  destruct (audio_labels (first_load ap catalog)) as [| l0 ls] eqn:El;
    [contradiction |].
  destruct (proj1 (List.Forall_forall _ _) Hls l0 (or_introl eq_refl))
    as (sa & Hsa & _ & Hia).
  destruct (get_by_itag_describes _ _ _ Hd Hsv) as (v & Hv & Hvi & Hvq).
  destruct (get_by_itag_describes _ _ _ Hd Hsa) as (a & Ha & Hai & Haq).
  exists v, a.
  rewrite (select_streams_found st (info_itag sa) (info_itag sv) query query);
    try (rewrite Hwin; simpl; assumption); try (rewrite Hwin; reflexivity).
  rewrite Hv, Ha, Hvi, Hai. simpl. auto.
Qed.

Lemma first_load_selects_listed_streams_witness :
  exists v a,
    select_streams
      {| win := loaded (fst (MainWindow_init "/tmp/tmpx" empty_disk)) example_query
                  (audio_labels (first_load example_adaptive example_catalog))
                  "1080 itag:137" "/home/user/Title.mp4";
         fs := empty_disk; trace := [] |}
    = (Ok tt,
       {| win := set_audio_stream (Some a)
                   (set_video_stream (Some v)
                      (loaded (fst (MainWindow_init "/tmp/tmpx" empty_disk))
                         example_query
                         (audio_labels (first_load example_adaptive example_catalog))
                         "1080 itag:137" "/home/user/Title.mp4"));
          fs := empty_disk; trace := [] |})
    /\ In v example_query /\ itag_of_label "1080 itag:137" = Ok (itag v)
    /\ In a example_query
    /\ res_bind (list_getitem
                   (audio_labels (first_load example_adaptive example_catalog)) 0)
                itag_of_label = Ok (itag a).
Proof.
  apply (first_load_selects_listed_streams example_adaptive example_catalog
           example_query (fst (MainWindow_init "/tmp/tmpx" empty_disk))
           "1080 itag:137" "/home/user/Title.mp4"
           {| win := loaded (fst (MainWindow_init "/tmp/tmpx" empty_disk))
                       example_query
                       (audio_labels (first_load example_adaptive example_catalog))
                       "1080 itag:137" "/home/user/Title.mp4";
              fs := empty_disk; trace := [] |}).
  - reflexivity.
  - vm_compute. auto.
  - vm_compute. discriminate.
  - reflexivity.
Defined.

(** X7.  A video none of whose streams is [audio/mp4] gets no audio label,
    and every run of [download_video] after its first load, whatever entry
    is chosen, shows "No audio stream available." and then raises
    [UnboundLocalError] on the unassigned [audio_itag]: nothing is
    downloaded, probed or merged. *)
Theorem video_without_mp4_audio_cannot_be_downloaded
    (ap : bool -> stream_info -> bool) (catalog : list stream_info)
    (query : list stream) (w : window) (choice output : string)
    (e : env) (st : state) :
  describes catalog query ->
  (forall s, In s catalog -> mime_type s <> "audio/mp4") ->
  In choice (combobox_items (first_load ap catalog)) ->
  win st = loaded w query (audio_labels (first_load ap catalog)) choice output ->
  audio_labels (first_load ap catalog) = []
  /\ fst (download_video e st) = Raise UnboundLocalError
  /\ events_of_run e st = [ShowMessage "No audio stream available."].
Proof.
  intros Hd Hno Hchoice Hwin.
  pose proof (first_load_no_audio ap catalog Hno) as Hnil.
  split; [exact Hnil |].
  destruct (available_resolutions_run ap catalog selector_init)
    as (Hvs & _ & Hcombo & _ & _).
  rewrite Hcombo in Hchoice.
  destruct (proj1 (List.Forall_forall _ _) Hvs choice Hchoice)
    as (sv & Hsv & _ & Hiv).
  rewrite Hnil in Hwin.
  assert (Hsel := select_streams_no_audio st (info_itag sv) query query).
  rewrite Hwin in Hsel. specialize (Hsel eq_refl Hiv eq_refl eq_refl).
  unfold events_of_run, download_video.
  rewrite (bind_Raise _ _ _ _ _ Hsel). simpl.
  split; [reflexivity |].
  unfold new_events. simpl.
  rewrite skipn_app, skipn_all, Nat.sub_diag. reflexivity.
Qed.

Lemma video_without_mp4_audio_cannot_be_downloaded_witness :
  audio_labels (first_load example_adaptive example_catalog_video_only) = []
  /\ fst (download_video (example_env "1000" [] 0)
            {| win := loaded (fst (MainWindow_init "/tmp/tmpx" empty_disk))
                        [example_video]
                        (audio_labels
                           (first_load example_adaptive example_catalog_video_only))
                        "1080 itag:137" "/home/user/Title.mp4";
               fs := empty_disk; trace := [] |})
     = Raise UnboundLocalError
  /\ events_of_run (example_env "1000" [] 0)
       {| win := loaded (fst (MainWindow_init "/tmp/tmpx" empty_disk))
                   [example_video]
                   (audio_labels
                      (first_load example_adaptive example_catalog_video_only))
                   "1080 itag:137" "/home/user/Title.mp4";
          fs := empty_disk; trace := [] |}
     = [ShowMessage "No audio stream available."].
Proof.
  apply (video_without_mp4_audio_cannot_be_downloaded
           example_adaptive example_catalog_video_only [example_video]
           (fst (MainWindow_init "/tmp/tmpx" empty_disk))
           "1080 itag:137" "/home/user/Title.mp4").
  - reflexivity.
  - intros s [<- | []]. discriminate.
  - vm_compute. auto.
  - reflexivity.
Defined.

(* ===================================================================== *)
(** * What a run of [download_video] leaves as it was *)
(* ===================================================================== *)

Lemma run_frame_refl (st : state) : run_frame st st.
Proof.
  unfold run_frame, same_inputs. repeat split.
  exists []. rewrite app_nil_r. split; [reflexivity | constructor].
Qed.

Section RunFrame.
Variable st0 : state.

Let I := run_frame st0.

Lemma framed_ret {A} (a : A) : keeps I (ret a).
Proof. intros st H. exact H. Qed.

Lemma framed_raise {A} (e : exn) : keeps I (@raise A e).
Proof. intros st H. exact H. Qed.

Lemma framed_lift {A} (r : res A) : keeps I (lift r).
Proof. intros st H. exact H. Qed.

Lemma framed_local {A} (v : option A) : keeps I (local v).
Proof. destruct v; intros st H; exact H. Qed.

Lemma framed_attr_of {A} (v : option A) : keeps I (attr_of v).
Proof. destruct v; intros st H; exact H. Qed.

Lemma framed_emit (ev : event) :
  writes_to (format_value (output_filename (win st0))) ev -> keeps I (emit ev).
Proof.
  intros Hev st (Hin & Hyt & evs & Htr & Hall). unfold I, run_frame. simpl.
  split; [exact Hin |]. split; [exact Hyt |].
  exists (evs ++ [ev])%list. rewrite Htr, app_assoc. split; [reflexivity |].
  apply List.Forall_app. split; [exact Hall | constructor; [exact Hev | constructor]].
Qed.

Lemma framed_set_self (f : window -> window) :
  preserves_inputs f -> keeps I (set_self f).
Proof.
  intros Hf st ((H1 & H2 & H3 & H4 & H5) & Hyt & Hev).
  destruct (Hf (win st)) as (F1 & F2 & F3 & F4 & F5 & F6).
  unfold I, run_frame, same_inputs. simpl.
  rewrite F1, F2, F3, F4, F5, F6. auto 10.
Qed.

Lemma framed_write_file (path : string) : keeps I (write_file path).
Proof. intros st H. exact H. Qed.

Lemma framed_bind {A B} (c : M A) (k : A -> M B) :
  keeps I c -> (forall a, keeps I (k a)) -> keeps I (bind c k).
Proof.
  intros Hc Hk st H. specialize (Hc st H). unfold bind.
  destruct (c st) as [[a | x] st1]; simpl in *; [apply Hk, Hc | exact Hc].
Qed.

Lemma framed_try_assign_itag (expr : res Z) : keeps I (try_assign_itag expr).
Proof.
  destruct expr as [z | []]; simpl;
    try apply framed_ret; try apply framed_raise.
  apply framed_bind; [apply framed_emit; exact Logic.I | intros; apply framed_ret].
Qed.

Lemma preserves_set_pct_completed (p : pyfloat) :
  preserves_inputs (set_pct_completed p).
Proof. intros w. simpl. auto 10. Qed.

Lemma preserves_set_video_stream (s : option stream) :
  preserves_inputs (set_video_stream s).
Proof. intros w. simpl. auto 10. Qed.

Lemma preserves_set_audio_stream (s : option stream) :
  preserves_inputs (set_audio_stream s).
Proof. intros w. simpl. auto 10. Qed.

Lemma preserves_set_ffmpeg_string (s : string) :
  preserves_inputs (set_ffmpeg_string s).
Proof. intros w. simpl. auto 10. Qed.

Lemma framed_select_streams : keeps I select_streams.
Proof.
  unfold select_streams.
  apply framed_bind; [intros st H; exact H | intros w].
  apply framed_bind; [apply framed_try_assign_itag | intros audio_itag].
  apply framed_bind; [apply framed_try_assign_itag | intros video_itag].
  apply framed_bind; [apply framed_attr_of | intros query].
  apply framed_bind; [apply framed_local | intros i].
  apply framed_bind;
    [apply framed_set_self, preserves_set_video_stream | intros _].
  apply framed_bind; [apply framed_attr_of | intros query'].
  apply framed_bind; [apply framed_local | intros i'].
  apply framed_set_self, preserves_set_audio_stream.
Qed.

Lemma framed_on_download_progress (s : stream) (r : Z) :
  keeps I (on_download_progress s r).
Proof.
  unfold on_download_progress.
  apply framed_bind; [apply framed_lift | intros ratio].
  apply framed_bind;
    [apply framed_set_self, preserves_set_pct_completed | intros _].
  apply framed_bind; [intros st H; exact H | intros w].
  apply framed_bind;
    [apply framed_set_self, preserves_set_pct_completed | intros _].
  apply framed_bind; [intros st H; exact H | intros w'].
  apply framed_bind; [apply framed_emit; exact Logic.I | intros _].
  apply framed_bind; [apply framed_emit; exact Logic.I | intros _].
  apply framed_ret.
Qed.

Lemma framed_run_callbacks (s : stream) (feed : list Z) :
  keeps I (run_callbacks s feed).
Proof.
  induction feed as [| r feed IH]; simpl; [apply framed_ret |].
  apply framed_bind; [apply framed_on_download_progress | intros _; exact IH].
Qed.

Lemma framed_Stream_download (s : stream) (dir name : string) :
  keeps I (Stream_download s dir name).
Proof.
  unfold Stream_download.
  apply framed_bind; [apply framed_emit; exact Logic.I | intros _].
  apply framed_bind; [apply framed_write_file | intros _].
  apply framed_bind; [apply framed_run_callbacks | intros _].
  destruct (download_fault s); [apply framed_raise |].
  apply framed_bind; [apply framed_emit; exact Logic.I | intros _].
  apply framed_ret.
Qed.

Lemma framed_download_streams : keeps I download_streams.
Proof.
  unfold download_streams.
  apply framed_bind; [intros st H; exact H | intros w].
  apply framed_bind.
  - destruct (video_stream w); [| apply framed_ret].
    apply framed_bind; [apply framed_Stream_download | intros; apply framed_ret].
  - intros _. apply framed_bind; [intros st H; exact H | intros w'].
    destruct (audio_stream w'); [| apply framed_ret].
    apply framed_bind; [apply framed_Stream_download | intros; apply framed_ret].
Qed.

Lemma framed_ffprobe_total_frames (v : string) (p : probe_run) :
  keeps I (ffprobe_total_frames v p).
Proof.
  unfold ffprobe_total_frames.
  apply framed_bind; [apply framed_emit; exact Logic.I | intros _].
  destruct (probe_fault p); [apply framed_raise |].
  apply framed_bind; [apply framed_emit; exact Logic.I | intros _].
  repeat (apply framed_bind; [apply framed_lift | intros ?]).
  apply framed_lift.
Qed.

Lemma framed_poll_loop (tot : pyfloat) (q : list Z) (code : Z) :
  keeps I (poll_loop tot q code).
Proof.
  induction q as [| n q IH]; simpl; [apply framed_emit; exact Logic.I |].
  apply framed_bind; [apply framed_emit; exact Logic.I | intros _].
  apply framed_bind; [apply framed_emit; exact Logic.I | intros _].
  apply framed_bind; [apply framed_lift | intros p].
  apply framed_bind; [apply framed_emit; exact Logic.I | intros _].
  apply framed_bind; [apply framed_emit; exact Logic.I | intros _].
  exact IH.
Qed.

Lemma until_reset_bind {A B} (c : M A) (k : A -> M B) :
  keeps I c -> (forall a, keeps_until_reset I (k a)) ->
  keeps_until_reset I (bind c k).
Proof.
  intros Hc Hk st H. specialize (Hc st H). unfold bind.
  destruct (c st) as [[a | x] st1]; simpl in *; [apply Hk, Hc | exact Hc].
Qed.

Lemma until_reset_raise {A} (e : exn) : keeps_until_reset I (@raise A e).
Proof. intros st H. exact H. Qed.

Lemma until_reset_bind_self {B} (k : window -> M B) :
  (forall w, output_filename w = output_filename (win st0) ->
             keeps_until_reset I (k w)) ->
  keeps_until_reset I (bind self k).
Proof.
  intros Hk st H. rewrite bind_self. apply Hk; [apply H | exact H].
Qed.

Lemma until_reset_merge_files (m : merge_run) (v a : string) (tot : pyfloat) :
  keeps_until_reset I (merge_files m v a tot).
Proof.
  unfold merge_files.
  apply until_reset_bind;
    [apply framed_set_self, preserves_set_ffmpeg_string | intros _].
  apply until_reset_bind_self. intros w Hout.
  destruct (popen_fault m); [apply until_reset_raise |].
  apply until_reset_bind;
    [apply framed_emit; simpl; rewrite Hout; reflexivity | intros _].
  apply until_reset_bind; [apply framed_emit; exact Logic.I | intros _].
  apply until_reset_bind; [apply framed_poll_loop | intros _].
  do 4 (apply until_reset_bind; [apply framed_emit; exact Logic.I | intros _]).
  intros st1 H1. rewrite bind_set_self. simpl.
  exists st1. split; [exact H1 | reflexivity].
Qed.

Lemma until_reset_download_video (e : env) :
  keeps_until_reset I (download_video e).
Proof.
  unfold download_video.
  apply until_reset_bind; [apply framed_select_streams | intros _].
  apply until_reset_bind; [apply framed_download_streams | intros _].
  apply until_reset_bind; [intros st H; exact H | intros w].
  do 3 (apply until_reset_bind; [apply framed_emit; exact Logic.I | intros _]).
  apply until_reset_bind; [apply framed_ffprobe_total_frames | intros tot].
  apply until_reset_merge_files.
Qed.
End RunFrame.

(** What every run of [download_video] leaves as it was. *)
Lemma download_video_frame (e : env) (st : state) :
  same_inputs st (snd (download_video e st))
  /\ Forall (writes_to (format_value (output_filename (win st))))
            (events_of_run e st)
  /\ match fst (download_video e st) with
     | Raise _ => yt (win (snd (download_video e st))) = yt (win st)
     | Ok _ => yt (win (snd (download_video e st))) = None
     end.
Proof.
  pose proof (until_reset_download_video st e st (run_frame_refl st)) as H.
  unfold events_of_run.
  destruct (fst (download_video e st)) as [s | x].
  - destruct H as (st1 & (Hin & _ & evs & Htr & Hall) & ->). simpl.
    split; [exact Hin |]. split; [| reflexivity].
    rewrite (new_events_appends st _ evs); [exact Hall | exact Htr].
  - destruct H as (Hin & Hyt & evs & Htr & Hall).
    split; [exact Hin |]. split; [| exact Hyt].
    rewrite (new_events_appends st _ evs); [exact Hall | exact Htr].
Qed.

(* ===================================================================== *)
(** * Runs that follow one another, and runs that fail *)
(* ===================================================================== *)

Lemma try_assign_itag_Some (expr : res Z) (st : state) (z : Z) :
  fst (try_assign_itag expr st) = Ok (Some z) -> expr = Ok z.
Proof.
  destruct expr as [z' | []]; simpl; try discriminate.
  intros H. injection H as ->. reflexivity.
Qed.

Lemma local_Ok {A} (v : option A) (st : state) (a : A) :
  fst (local v st) = Ok a -> v = Some a.
Proof. destruct v; simpl; [intros H; injection H as ->; reflexivity | discriminate]. Qed.

(** When [select_streams] returns, both labels were read as itags. *)
Lemma select_streams_Ok_inv (st : state) (u : unit) :
  fst (select_streams st) = Ok u ->
  exists ia iv,
    res_bind (list_getitem (audio (win st)) 0) itag_of_label = Ok ia
    /\ itag_of_label (combobox_text (win st)) = Ok iv.
Proof.
  unfold select_streams. rewrite bind_self. intros H.
  destruct (bind_fst_Ok _ _ _ _ H) as (oa & Ha & Hb). rewrite Hb in H. clear Hb.
  destruct (bind_fst_Ok _ _ _ _ H) as (ov & Hv & Hb). rewrite Hb in H. clear Hb.
  destruct (bind_fst_Ok _ _ _ _ H) as (q & Hq & Hb). rewrite Hb in H. clear Hb.
  destruct (bind_fst_Ok _ _ _ _ H) as (i & Hi & Hb). rewrite Hb in H. clear Hb.
  destruct (bind_fst_Ok _ _ _ _ H) as (u1 & Hu & Hb). rewrite Hb in H. clear Hb.
  destruct (bind_fst_Ok _ _ _ _ H) as (q' & Hq' & Hb). rewrite Hb in H. clear Hb.
  destruct (bind_fst_Ok _ _ _ _ H) as (i' & Hi' & Hb).
  apply local_Ok in Hi. apply local_Ok in Hi'. subst oa ov.
  apply try_assign_itag_Some in Ha. apply try_assign_itag_Some in Hv.
  eauto.
Qed.

(** X8.  A run that returns has set [self.yt] to [None] and has left the
    labels as they were; a second run started without loading a video again
    therefore raises [AttributeError] at [self.yt.streams], before anything
    is shown, downloaded or merged, in every environment. *)
Theorem second_run_without_reload_raises_AttributeError
    (e e' : env) (st : state) (s : string) :
  fst (download_video e st) = Ok s ->
  download_video e' (snd (download_video e st))
  = (Raise AttributeError, snd (download_video e st)).
Proof.
  intros H.
  destruct (download_video_frame e st) as ((Ha & Hc & _) & _ & Hyt).
  rewrite H in Hyt.
  assert (Hsel : exists u, fst (select_streams st) = Ok u).
  { unfold download_video in H.
    destruct (bind_fst_Ok _ _ _ _ H) as (u & Hu & _). eauto. }
  destruct Hsel as (u & Hsel).
  destruct (select_streams_Ok_inv st u Hsel) as (ia & iv & Hia & Hiv).
  rewrite <- Ha in Hia. rewrite <- Hc in Hiv.
  unfold download_video at 1.
  rewrite (bind_Raise _ _ _ _ _ (select_streams_no_video _ ia iv Hia Hiv Hyt)).
  reflexivity.
Qed.

Lemma second_run_without_reload_raises_AttributeError_witness :
  download_video (example_env "1000" [100] 0)
    (snd (download_video (example_env "1000" [100] 0) example_state))
  = (Raise AttributeError,
     snd (download_video (example_env "1000" [100] 0) example_state)).
Proof.
  apply (second_run_without_reload_raises_AttributeError
           (example_env "1000" [100] 0) (example_env "1000" [100] 0)
           example_state "Download complete.").
  vm_compute. reflexivity.
Defined.

(** X9.  A run that raises performs none of the shutdown steps: the pipe
    is not closed, the reader thread is not joined and the process is not
    waited for, even when ffmpeg had been started; and [self.yt] is what it
    was, so that the video stays loaded. *)
Theorem failed_run_skips_shutdown_and_keeps_video
    (e : env) (st : state) (x : exn) :
  fst (download_video e st) = Raise x ->
  yt (win (snd (download_video e st))) = yt (win st)
  /\ forall ev, In ev (events_of_run e st) -> ~ is_shutdown_event ev.
Proof.
  intros H.
  destruct (download_video_frame e st) as (_ & _ & Hyt). rewrite H in Hyt.
  split; [exact Hyt |].
  destruct (download_video_stages e st) as [_ Hst]. rewrite H in Hst.
  destruct Hst as (s & Hs & Hrun).
  intros ev Hin Hsh.
  pose proof (In_shutdown_rank _ _ _ _ Hrun Hin Hsh) as Hr.
  destruct s; simpl in Hs, Hr; try contradiction; lia.
Qed.

Lemma failed_run_skips_shutdown_and_keeps_video_witness :
  In (Popen "ffmpeg -y -loglevel error -i /tmp/tmpx/video.mp4 -i /tmp/tmpx/audio.mp3 -codec:v copy -codec:a copy -progress pipe:1"
            "/home/user/Title.mp4")
     (events_of_run (example_env "0" [100] 0) example_state)
  /\ yt (win (snd (download_video (example_env "0" [100] 0) example_state)))
     = yt (win example_state)
  /\ forall ev, In ev (events_of_run (example_env "0" [100] 0) example_state) ->
                ~ is_shutdown_event ev.
Proof.
  split; [vm_compute; tauto |].
  apply (failed_run_skips_shutdown_and_keeps_video
           (example_env "0" [100] 0) example_state ZeroDivisionError).
  vm_compute. reflexivity.
Defined.

Lemma Qzero_true_iff (q : Q) : Qzero q = true <-> (q == 0)%Q.
Proof.
  unfold Qzero. split; intros H.
  - apply Qeq_alt. destruct (q ?= 0)%Q; [reflexivity | discriminate | discriminate].
  - apply Qeq_alt in H. rewrite H. reflexivity.
Qed.

(** X10.  When the frame count is zero and the loop takes a sample, the
    division of the first iteration raises [ZeroDivisionError]: ffmpeg and
    the reader thread have been started, nothing has been handed to the
    progress bar, and no shutdown step follows. *)
Theorem zero_total_raises_in_first_iteration
    (m : merge_run) (v a : string) (q : Q) (st : state) (n : Z) (rest : list Z) :
  popen_fault m = None -> samples m = n :: rest -> (q == 0)%Q ->
  fst (merge_files m v a (Fin q) st) = Raise ZeroDivisionError
  /\ exists cmd,
       new_events st (snd (merge_files m v a (Fin q) st))
       = [Popen cmd (format_value (output_filename (win st)));
          ReaderStarted; Polled None; Slept].
Proof.
  intros Hp Hs Hq. unfold merge_files. mstep. rewrite Hp. mstep.
  assert (Hm : merge_percent n (Fin q) = Raise ZeroDivisionError).
  { unfold merge_percent, int_truediv_float, float_truediv, float_of_int.
    rewrite (proj2 (Qzero_true_iff q) Hq). reflexivity. }
  rewrite Hs. cbn [poll_loop]. rewrite Hm.
  repeat (rewrite ?bind_assoc; mstep). simpl.
  split; [reflexivity |]. eexists. unfold new_events. simpl.
  rewrite <- !app_assoc. rewrite skipn_app, skipn_all, Nat.sub_diag.
  reflexivity.
Qed.

Lemma zero_total_raises_in_first_iteration_witness :
  fst (merge_files (merge (example_env "0" [100] 0)) "/tmp/tmpx/video.mp4"
         "/tmp/tmpx/audio.mp3" (Fin 0) example_state)
  = Raise ZeroDivisionError
  /\ exists cmd,
       new_events example_state
         (snd (merge_files (merge (example_env "0" [100] 0)) "/tmp/tmpx/video.mp4"
                 "/tmp/tmpx/audio.mp3" (Fin 0) example_state))
       = [Popen cmd (format_value (output_filename (win example_state)));
          ReaderStarted; Polled None; Slept].
Proof.
  apply (zero_total_raises_in_first_iteration
           (merge (example_env "0" [100] 0)) "/tmp/tmpx/video.mp4"
           "/tmp/tmpx/audio.mp3" 0 example_state 100 []).
  - reflexivity.
  - reflexivity.
  - reflexivity.
Defined.

(* ===================================================================== *)
(** * The download button and the worker *)
(* ===================================================================== *)

Lemma download_worker_snd (fe : exn -> string) (e : env) (st : state) :
  snd (download_worker fe e st) = snd (download_video e st).
Proof. unfold download_worker. destruct (download_video e st). reflexivity. Qed.

Lemma progress_emitted_prints (evs : list event) :
  List.flat_map deliver (progress_emitted evs)
  = List.map PrintedProgress (emitted_progress evs).
Proof.
  induction evs as [| ev evs IH]; [reflexivity |].
  destruct ev; simpl; try exact IH. rewrite IH. reflexivity.
Qed.

(** X11.  Whatever the run of [download_video] does, the slots of the
    window end by resetting the bar to 0 with the text "Download
    complete!".  Before that they only print: the values emitted on
    [progress_callback], then the returned string, or, when the run raised,
    the traceback.  The [error] signal has no slot, so a failed run is
    shown on the window exactly as a successful one. *)
Theorem download_worker_always_shows_complete
    (format_exc : exn -> string) (e : env) (st : state) :
  fst (download_worker format_exc e st)
  = (List.map PrintedProgress (emitted_progress (events_of_run e st))
     ++ match fst (download_video e st) with
        | Ok s => [PrintedOutput s]
        | Raise x => [PrintedTraceback (format_exc x)]
        end
     ++ [BarSetValue (float_of_int 0); BarSetFormat "Download complete!"])%list.
Proof.
  unfold download_worker, events_of_run.
  destruct (download_video e st) as [[s | x] st1]; simpl fst; simpl snd;
    rewrite flat_map_app, progress_emitted_prints; reflexivity.
Qed.

(** X12.  [download_manager] with a folder chosen stores
    [os.path.join(save_folder, f'{self.title}.mp4')] and runs the worker:
    whenever that run starts ffmpeg, this is the file it tells ffmpeg to
    write, and it is still the stored name after the run.  For a title
    that begins with "/" the joined path is the title itself, outside the
    chosen folder.  Without a folder only a message is shown. *)
Theorem download_manager_output_path
    (format_exc : exn -> string) (e : env) (save_folder : string)
    (title : option string) (st : state) :
  let out := os_path_join save_folder (format_value title ++ ".mp4") in
  let run := download_manager format_exc e save_folder title st in
  if String.eqb save_folder ""
  then run = ([], {| win := win st; fs := fs st;
                     trace := trace st ++ [ShowMessage "No download path provided."] |})
  else output_filename (win (snd run)) = Some out
       /\ Forall (writes_to out) (new_events st (snd run))
       /\ forall t, title = Some t -> startswith "/" t = true -> out = t ++ ".mp4".
Proof.
  cbv zeta. unfold download_manager.
  destruct (String.eqb save_folder ""); [reflexivity |].
  rewrite download_worker_snd.
  set (out := os_path_join save_folder (format_value title ++ ".mp4")).
  set (st1 := snd (set_self (set_output_filename (Some out)) st)).
  destruct (download_video_frame e st1) as ((_ & _ & _ & Ho & _) & Hev & _).
  split; [rewrite Ho; reflexivity |].
  split; [exact Hev |].
  intros t -> Ht. unfold out, os_path_join. simpl format_value.
  assert (Hs : startswith "/" (t ++ ".mp4") = true).
  { destruct t as [| c t]; [discriminate Ht |].
    unfold startswith in *.
    change (String c t ++ ".mp4") with (String c (t ++ ".mp4")).
    cbn [String.prefix] in Ht |- *.
    destruct (ascii_dec "/" c); [| discriminate Ht].
    destruct (t ++ ".mp4"); reflexivity. }
  rewrite Hs. reflexivity.
Qed.

(* ===================================================================== *)
(** * The merge phase: what every interleaving keeps *)
(* ===================================================================== *)



Lemma frames_cons_head (l : string) (rest : list string) (v : Z) :
  frame_of l = Some v -> In v (frames (l :: rest)).
Proof. simpl. intros ->. left. reflexivity. Qed.


Section SlotValues.
Variable tot : pyfloat.
Variable lines : list string.






End SlotValues.


(* ===================================================================== *)
(** * The merge phase and the sequential loop *)
(* ===================================================================== *)

Lemma iterations_app (tot : pyfloat) (q q' : list Z) :
  Forall (sample_ok tot) q ->
  iterations tot (q ++ q') = (iterations tot q ++ iterations tot q')%list.
Proof.
  induction q as [| n q IH]; intros H; [reflexivity |].
  inversion H as [| ? ? (p & Hp) Hq]; subst. simpl. rewrite Hp.
  rewrite (IH Hq). reflexivity.
Qed.

(** The loop on samples whose percentages can be computed. *)
Lemma poll_loop_iterations (tot : pyfloat) (q : list Z) (code : Z) :
  Forall (sample_ok tot) q ->
  forall st,
    poll_loop tot q code st
    = (Ok tt, {| win := win st; fs := fs st;
                 trace := trace st ++ iterations tot q ++ [Polled (Some code)] |}).
Proof.
  induction q as [| n q IH]; intros H st.
  - reflexivity.
  - inversion H as [| ? ? (p & Hp) Hq]; subst.
    cbn [poll_loop iterations]. rewrite Hp. mstep. rewrite (IH Hq). simpl.
    rewrite <- !app_assoc. reflexivity.
Qed.

(** The loop on samples the last of which has no percentage. *)
Lemma poll_loop_dies (tot : pyfloat) (q : list Z) (n : Z) (x : exn) (code : Z) :
  Forall (sample_ok tot) q -> merge_percent n tot = Raise x ->
  forall st,
    poll_loop tot (q ++ [n]) code st
    = (Raise x, {| win := win st; fs := fs st;
                   trace := trace st ++ iterations tot (q ++ [n]) |}).
Proof.
  intros H Hn. induction q as [| m q IH]; intros st.
  - cbn [app poll_loop iterations]. rewrite Hn. mstep.
    rewrite <- !app_assoc. reflexivity.
  - inversion H as [| ? ? (p & Hp) Hq]; subst.
    cbn [app poll_loop iterations]. rewrite Hp. mstep. rewrite (IH Hq). simpl.
    rewrite <- !app_assoc. reflexivity.
Qed.

Section Protocol.
Variable tot : pyfloat.
Variable code : Z.

Let P := merge_protocol tot code.

Lemma start_protocol (lines : list string) : P (merge_start lines code).
Proof.
  unfold P, merge_protocol. simpl.
  split; [reflexivity |]. split; [discriminate |]. auto.
Qed.

Lemma child_step_protocol (s s' : merge_state) :
  P s -> child_step s = Some s' -> P s'.
Proof.
  intros (Hc & Hex & Hlog & Hpc & Hok). unfold child_step.
  destruct (exit_status s) eqn:Es; [discriminate |].
  assert (Hpc' : match main s with
                 | MPoll | MSleep => pipe_closed s = false
                 | MDied _ => True
                 | _ => False
                 end).
  { destruct (main s); try exact Hpc; try exact I;
      destruct Hpc as (_ & H & _) || destruct Hpc as (_ & H); discriminate H. }
  destruct (lines_left s) as [| l ls]; intros H; injection H as <-;
    unfold P, merge_protocol; simpl;
    (split; [exact Hc |]); (split; [| split; [exact Hlog |]]).
  - intros c H. injection H as <-. auto.
  - split; [| exact Hok]. destruct (main s); try contradiction; auto.
  - discriminate.
  - split; [| exact Hok]. destruct (main s); try contradiction; auto.
Qed.

Lemma reader_step_protocol (s s' : merge_state) :
  P s -> reader_step s = Some s' -> P s'.
Proof.
  intros (Hc & Hex & Hlog & Hpc & Hok) Hstep.
  assert (Hshape : exists p q r, s' = with_reader s p q r
                                 /\ (reader_ended (reader s) = false)).
  { unfold reader_step in Hstep.
    destruct (reader s); try discriminate.
    - destruct (exit_status s); injection Hstep as <-; eauto.
    - destruct (pipe_closed s); [injection Hstep as <-; eauto |].
      destruct (pipe s) as [| l ls].
      + destruct (exit_status s); [| discriminate].
        destruct (progress_reader_line "" (q0 s));
          injection Hstep as <-; eauto.
      + destruct (progress_reader_line l (q0 s));
          injection Hstep as <-; eauto. }
  destruct Hshape as (p & q & r & -> & Hr).
  unfold P, merge_protocol. simpl.
  split; [exact Hc |]. split; [exact Hex |]. split; [exact Hlog |].
  split; [| exact Hok].
  destruct (main s); try exact Hpc;
    destruct Hpc as (_ & _ & H); rewrite H in Hr; discriminate.
Qed.

Lemma main_step_protocol (s s' : merge_state) :
  P s -> main_step tot s = Some s' -> P s'.
Proof.
  intros (Hc & Hex & Hlog & Hpc & Hok). unfold main_step.
  destruct (main s) eqn:Em; try discriminate.
  - (* the test of the loop *)
    destruct (exit_status s) as [c |] eqn:Es; intros H; injection H as <-;
      unfold P, merge_protocol; simpl; rewrite !app_nil_r, Hlog;
      (split; [exact Hc |]); (split; [rewrite Es; exact Hex |]).
    + destruct (Hex c eq_refl) as [-> _].
      split; [unfold log_at; rewrite app_nil_r; reflexivity |].
      split; [split; [exact Hpc | exact Es] | exact Hok].
    + split; [unfold log_at; rewrite app_nil_r; reflexivity |].
      split; [exact Hpc | exact Hok].
  - (* the body of the loop *)
    destruct (merge_percent (q0 s) tot) as [p | x] eqn:Ep;
      intros H; injection H as <-;
      unfold P, merge_protocol; simpl; rewrite Hlog;
      (split; [exact Hc |]); (split; [exact Hex |]);
      unfold log_at; rewrite (iterations_app tot _ [q0 s] Hok);
      cbn [iterations]; rewrite Ep.
    + split; [rewrite <- !app_assoc; reflexivity |].
      split; [exact Hpc |].
      apply List.Forall_app. split; [exact Hok |].
      constructor; [exists p; exact Ep | constructor].
    + split; [rewrite <- !app_assoc; reflexivity |].
      split; [exact I |]. exists (sampled s), (q0 s). auto.
  - (* close *)
    intros H; injection H as <-.
    unfold P, merge_protocol; simpl; rewrite !app_nil_r, Hlog.
    split; [exact Hc |]. split; [exact Hex |].
    split; [unfold log_at; rewrite <- !app_assoc; reflexivity |].
    split; [| exact Hok]. split; [reflexivity | apply Hpc].
  - (* join *)
    assert (Hr : reader_ended (reader s) = true -> P (with_main s (pipe_closed s) MWait [] [ReaderJoined])).
    { intros Hr. unfold P, merge_protocol; simpl; rewrite !app_nil_r, Hlog.
      split; [exact Hc |]. split; [exact Hex |].
      split; [unfold log_at; rewrite <- !app_assoc; reflexivity |].
      split; [| exact Hok]. destruct Hpc as [H1 H2]. auto. }
    destruct (reader s); try discriminate;
      intros H; injection H as <-; apply Hr; reflexivity.
  - (* wait *)
    destruct (exit_status s) as [c |] eqn:Es; [| discriminate].
    intros H; injection H as <-.
    destruct (Hex c eq_refl) as [-> _].
    unfold P, merge_protocol; simpl; rewrite !app_nil_r, Hlog.
    split; [exact Hc |]. split; [rewrite Es; exact Hex |].
    split; [unfold log_at; rewrite <- !app_assoc; reflexivity |].
    split; [rewrite Es; exact Hpc | exact Hok].
Qed.

Lemma exec_protocol (sched : list actor) :
  forall s s', P s -> exec tot sched s = Some s' -> P s'.
Proof.
  induction sched as [| a sched IH]; intros s s' Inv H; simpl in H.
  - injection H as <-. exact Inv.
  - destruct (step tot a s) as [s1 |] eqn:Hs; [| discriminate].
    apply (IH s1 s'); [| exact H].
    destruct a; simpl in Hs.
    + exact (child_step_protocol s s1 Inv Hs).
    + exact (reader_step_protocol s s1 Inv Hs).
    + exact (main_step_protocol s s1 Inv Hs).
Qed.
End Protocol.

(** What [merge_files] does for samples whose percentages can be
    computed. *)
Lemma merge_files_samples_ok (tot : pyfloat) (q : list Z) (code : Z)
    (v a : string) (st : state) :
  Forall (sample_ok tot) q ->
  fst (merge_files {| popen_fault := None; samples := q; merge_returncode := code |}
         v a tot st) = Ok "Download complete."
  /\ exists cmd,
       appends st
         (snd (merge_files {| popen_fault := None; samples := q;
                              merge_returncode := code |} v a tot st))
         ([Popen cmd (format_value (output_filename (win st))); ReaderStarted]
          ++ (iterations tot q
              ++ [Polled (Some code); PipeClosed; ReaderJoined; Waited code])
          ++ [ShowMessage "Finished download."]).
Proof.
  intros H. unfold merge_files. mstep. cbn [popen_fault samples merge_returncode].
  mstep. rewrite (bind_Ok _ _ _ _ _ (poll_loop_iterations tot q code H _)).
  mstep. simpl. split; [reflexivity |]. eexists. unfold appends. simpl.
  rewrite <- !app_assoc. reflexivity.
Qed.

(** What [merge_files] does when the percentage of the last sample cannot
    be computed. *)
Lemma merge_files_sample_fails (tot : pyfloat) (q : list Z) (n : Z) (x : exn)
    (code : Z) (v a : string) (st : state) :
  Forall (sample_ok tot) q -> merge_percent n tot = Raise x ->
  fst (merge_files {| popen_fault := None; samples := q ++ [n];
                      merge_returncode := code |} v a tot st) = Raise x
  /\ exists cmd,
       appends st
         (snd (merge_files {| popen_fault := None; samples := q ++ [n];
                              merge_returncode := code |} v a tot st))
         ([Popen cmd (format_value (output_filename (win st))); ReaderStarted]
          ++ iterations tot (q ++ [n])).
Proof.
  intros H Hn. unfold merge_files. mstep. cbn [popen_fault samples merge_returncode].
  mstep. rewrite (bind_Raise _ _ _ _ _ (poll_loop_dies tot q n x code H Hn _)).
  simpl. split; [reflexivity |]. eexists. unfold appends. simpl.
  rewrite <- !app_assoc. reflexivity.
Qed.

(** X14.  The threads of the merge phase do what the sequential loop of
    [download_video] does on the samples the main thread took.  In every
    interleaving, when the main thread is done, the process has exited with
    its code after writing all its lines, the pipe is closed and the reader
    thread has ended; [merge_files], run on the samples and the exit code
    that the main thread observed, returns "Download complete." and its
    events between the start of the reader and the last message are exactly
    the log of the main thread.  When the main thread has died with an
    exception, [merge_files] raises the same exception after the same
    log. *)
Theorem merge_phase_is_the_sequential_loop
    (tot : pyfloat) (lines : list string) (code : Z) (sched : list actor)
    (v a : string) (st : state) :
  match exec tot sched (merge_start lines code) with
  | Some s =>
      let run := merge_files (observed_run s) v a tot st in
      match main s with
      | MDone =>
          exit_status s = Some code /\ lines_left s = []
          /\ pipe_closed s = true /\ reader_ended (reader s) = true
          /\ fst run = Ok "Download complete."
          /\ exists cmd,
               new_events st (snd run)
               = ([Popen cmd (format_value (output_filename (win st)));
                   ReaderStarted]
                  ++ log s ++ [ShowMessage "Finished download."])%list
      | MDied x =>
          fst run = Raise x
          /\ exists cmd,
               new_events st (snd run)
               = ([Popen cmd (format_value (output_filename (win st)));
                   ReaderStarted] ++ log s)%list
      | _ => True
      end
  | None => True
  end.
Proof.
  destruct (exec tot sched (merge_start lines code)) as [s |] eqn:He; [| exact I].
  destruct (exec_protocol tot code sched _ s (start_protocol tot code lines) He)
    as (Hc & Hex & Hlog & Hpc & Hok).
  cbv zeta. unfold observed_run. rewrite Hc.
  destruct (main s); try exact I.
  - destruct Hpc as (Hclosed & Hes & Hr).
    destruct (Hex code Hes) as [_ Hll].
    destruct (merge_files_samples_ok tot (sampled s) code v a st Hok)
      as (Hfst & cmd & Happ).
    repeat (split; [assumption |]).
    exists cmd. rewrite (new_events_appends _ _ _ Happ), Hlog. reflexivity.
  - destruct Hok as (q & n & Hs & Hq & Hn).
    rewrite Hs.
    destruct (merge_files_sample_fails tot q n e code v a st Hq Hn)
      as (Hfst & cmd & Happ).
    split; [exact Hfst |].
    exists cmd. rewrite (new_events_appends _ _ _ Happ), Hlog, Hs.
    unfold log_at. rewrite app_nil_r. reflexivity.
Qed.

(* ===================================================================== *)
(** * The merge phase comes to an end *)
(* ===================================================================== *)





(* ===================================================================== *)
(** * The lines of the progress feed *)
(* ===================================================================== *)



